(** * Lab_Agent: a smartphone-store agent and its environment

    A shallow embedding of [Lab_Agent.py]: the cumulative-threshold sampler
    [select_from_dist], the stochastic environment [SmartphoneEnvironment],
    the fixed-policy agent [SmartphoneAgent] and the driver [Simulation].

    Modelling conventions.
    - Python [int]s (stock, order quantities, sales, the seasonal deltas, the
      clock) are [Z] or [nat]; they are unbounded in Python as well.
    - Python [float]s are reached through the interface [PyFloat], which has
      two implementations: [binary64] (IEEE 754 doubles, what CPython
      computes, on Rocq's primitive floats) and [exact] (rationals, the same
      formulas without rounding).  Every definition of the program is written
      once, over the interface.  What depends on the arithmetic is proved
      for [binary64], from the standard library's specification of the
      float operations ([SpecFloat]); what does not is proved for every
      implementation of the interface.
    - The two generators [random.random()] and [random.gauss(0, noise_sd)]
      are inputs: each call that draws receives the drawn values.
    - A raised exception is the [Raise] result; the only [raise] of the
      program is the [RuntimeError] at the end of [select_from_dist].
    - The action is a dictionary read with [.get("buy", 0)], so it is a
      [gmap string Z]; percepts are always built with both keys and are a
      record. *)

From Stdlib Require Import ZArith QArith Qpower Lia Lqa Floats Uint63.
From stdpp Require Import base option list strings gmap.

Set Default Proof Using "Type".
#[local] Set Warnings "-inexact-float".

(** ** Numbers *)

Declare Scope py_scope.
Delimit Scope py_scope with py.

Class PyFloat (F : Type) : Type := {
  (** an [int] operand promoted to [float] *)
  of_int : Z → F;
  (** a decimal literal of the source, given by the rational it denotes *)
  lit : Q → F;
  fadd : F → F → F;
  fsub : F → F → F;
  fmul : F → F → F;
  flt : F → F → bool;
  fle : F → F → bool;
  feq : F → F → bool
}.

Infix "+" := fadd : py_scope.
Infix "-" := fsub : py_scope.
Infix "*" := fmul : py_scope.
Infix "<?" := flt : py_scope.
Infix "<=?" := fle : py_scope.
Infix "=?" := feq : py_scope.

(** Exact arithmetic: no rounding. *)
Definition Qlt_bool (x y : Q) : bool := negb (Qle_bool y x).

#[export] Instance exact : PyFloat Q := {
  of_int := inject_Z;
  lit := λ q, q;
  fadd := Qplus;
  fsub := Qminus;
  fmul := Qmult;
  flt := Qlt_bool;
  fle := Qle_bool;
  feq := Qeq_bool
}.

(** IEEE 754 binary64, round to nearest even, as CPython's [float]. *)
Definition float_of_Z (z : Z) : float :=
  match z with
  | Z0 => PrimFloat.zero
  | Zpos _ => PrimFloat.of_uint63 (Uint63.of_Z z)
  | Zneg p => PrimFloat.opp (PrimFloat.of_uint63 (Uint63.of_Z (Zpos p)))
  end.

(** The double nearest to [n/d]: both operands of the division are exact for
    the literals of the program, and the division rounds once. *)
Definition float_of_Q (q : Q) : float :=
  PrimFloat.div (float_of_Z (Qnum q)) (float_of_Z (Zpos (Qden q))).

#[export] Instance binary64 : PyFloat float := {
  of_int := float_of_Z;
  lit := float_of_Q;
  fadd := PrimFloat.add;
  fsub := PrimFloat.sub;
  fmul := PrimFloat.mul;
  flt := PrimFloat.ltb;
  fle := PrimFloat.leb;
  feq := PrimFloat.eqb
}.

(** The rational a finite double stands for (0 for infinities and NaN). *)
Definition Q_of_float (x : float) : Q :=
  match Prim2SF x with
  | S754_finite s m e =>
      let v := if s then Z.neg m else Z.pos m in
      match e with
      | Zneg k => v # (2 ^ k)
      | _ => inject_Z (v * 2 ^ e)
      end
  | _ => 0
  end.

(** ** Exceptions *)

Inductive exn : Set :=
  | RuntimeError.

Inductive result (A : Type) : Type :=
  | Ok (a : A)
  | Raise (e : exn).
Arguments Ok {A} a.
Arguments Raise {A} e.

#[export] Instance result_bind : MBind result := λ A B k m,
  match m with
  | Ok a => k a
  | Raise e => Raise e
  end.

Section Program.
Context {F : Type} `{PyFloat F}.
Local Open Scope py_scope.

(** ** Utility functions *)

(** [item_prob_dist.items()] in insertion order; [ranreal] is the value
    drawn by [random.random()]. *)
Fixpoint select_from_dist {K : Type} (item_prob_dist : list (K * F)) (ranreal : F)
    : result K :=
  match item_prob_dist with
  | [] => Raise RuntimeError
  | (item, prob) :: items =>
      if ranreal <? prob then Ok item
      else select_from_dist items (ranreal - prob)
  end.

(** [sum(item_prob_dist.values())] *)
Definition sum_probs {K : Type} (item_prob_dist : list (K * F)) : F :=
  foldl (λ acc ip, acc + ip.2) (of_int 0) item_prob_dist.

(** ** Environment *)

Record SmartphoneEnvironment : Type := {
  time : nat;
  stock : Z;
  price : F;
  stock_history : list Z;
  price_history : list F
}.

Record Percept : Type := {
  percept_price : F;
  percept_stock : Z
}.

(** Class attributes. *)
Definition price_delta : list Z := [10; -20; 5; -15; 0; 25; -30; 20; -5; 0]%Z.
Definition noise_sd : Z := 5.

(** The dictionary literal sampled by [do_action]. *)
Definition daily_sales_dist : list (Z * F) :=
  [(3, lit 0.2); (5, lit 0.3); (7, lit 0.3); (10, lit 0.2)]%Z.

(** [SmartphoneEnvironment()] *)
Definition SmartphoneEnvironment_init : SmartphoneEnvironment := {|
  time := 0;
  stock := 50;
  price := of_int 600;
  stock_history := [50%Z];
  price_history := [of_int 600]
|}.

Definition initial_percept (self : SmartphoneEnvironment) : Percept :=
  {| percept_price := price self; percept_stock := stock self |}.

(** [action.get("buy", 0)] *)
Definition bought_of (action : gmap string Z) : Z := default 0%Z (action !! "buy").

(** [do_action]: [ranreal] is the draw of [random.random()] inside
    [select_from_dist], [noise] the draw of [random.gauss(0, noise_sd)].
    The sampler is called before any field is assigned, so a [Raise]
    leaves the environment as it was.  The index [time % len(price_delta)]
    is always in range ([price_delta_index]); the default of [!!!] is
    never used. *)
Definition do_action (ranreal noise : F) (action : gmap string Z)
    (self : SmartphoneEnvironment) : result (SmartphoneEnvironment * Percept) :=
  daily_sales ← select_from_dist daily_sales_dist ranreal;
  let bought := bought_of action in
  let stock' := Z.max 0 (stock self + bought - daily_sales) in
  let time' := S (time self) in
  let price' :=
    price self + (of_int (price_delta !!! (time' mod length price_delta)) + noise) in
  Ok ({| time := time';
         stock := stock';
         price := price';
         stock_history := stock_history self ++ [stock'];
         price_history := price_history self ++ [price'] |},
      {| percept_price := price'; percept_stock := stock' |}).

(** ** Agent *)

Record SmartphoneAgent : Type := {
  average_price : F;
  buy_history : list Z;
  total_spent : F
}.

(** [SmartphoneAgent()] *)
Definition SmartphoneAgent_init : SmartphoneAgent := {|
  average_price := of_int 600;
  buy_history := [];
  total_spent := of_int 0
|}.

Definition select_action (percept : Percept) (self : SmartphoneAgent)
    : SmartphoneAgent * gmap string Z :=
  let current_price := percept_price percept in
  let current_stock := percept_stock percept in
  let average_price' :=
    average_price self + (current_price - average_price self) * lit 0.1 in
  let tobuy :=
    if (current_price <? lit 0.8 * average_price') && (10 <? current_stock)%Z then 15%Z
    else if (current_stock <? 10)%Z then 10%Z
    else 0%Z in
  ({| average_price := average_price';
      buy_history := buy_history self ++ [tobuy];
      total_spent := total_spent self + of_int tobuy * current_price |},
   {[ "buy" := tobuy ]}).

(** ** Simulation *)

Record Simulation : Type := {
  agent : SmartphoneAgent;
  environment : SmartphoneEnvironment;
  percept : Percept
}.

(** [Simulation(agent, environment)] *)
Definition Simulation_init (agent : SmartphoneAgent) (environment : SmartphoneEnvironment)
    : Simulation :=
  {| agent := agent; environment := environment;
     percept := initial_percept environment |}.

(** One iteration of the loop body of [run]. *)
Definition run_step (ranreal noise : F) (self : Simulation) : result Simulation :=
  let '(agent', action) := select_action (percept self) (agent self) in
  '(environment', percept') ← do_action ranreal noise action (environment self);
  Ok {| agent := agent'; environment := environment'; percept := percept' |}.

(** [for step in range(steps)]: iteration [step] uses the draws
    [rng step = (ranreal, noise)]; [run_from] performs the iterations
    [step, step + 1, ..., step + steps - 1]. *)
Fixpoint run_from (rng : nat → F * F) (step steps : nat) (self : Simulation)
    : result Simulation :=
  match steps with
  | O => Ok self
  | S steps' =>
      self' ← run_step (rng step).1 (rng step).2 self;
      run_from rng (S step) steps' self'
  end.

Definition run (rng : nat → F * F) (steps : nat) (self : Simulation) : result Simulation :=
  run_from rng 0 steps self.

(** ** Vocabulary of the properties *)

(** Every probability of the table is [>= 0]. *)
Definition nonneg_probs {K : Type} (item_prob_dist : list (K * F)) : Prop :=
  Forall (λ ip, (of_int 0 <=? ip.2) = true) item_prob_dist.

(** A value [random.random()] may return: [0 <= ranreal < 1]. *)
Definition unit_draw (ranreal : F) : Prop :=
  (of_int 0 <=? ranreal) = true ∧ (ranreal <? of_int 1) = true.

(** One call [environment.do_action(action)] with the values it draws. *)
Record Call : Type := {
  call_ranreal : F;
  call_noise : F;
  call_action : gmap string Z
}.

(** The environment after a call: the mutated object when the call
    returns, the untouched object when it raises. *)
Definition after_call (self : SmartphoneEnvironment) (c : Call) : SmartphoneEnvironment :=
  match do_action (call_ranreal c) (call_noise c) (call_action c) self with
  | Ok (self', _) => self'
  | Raise _ => self
  end.

(** The environment after each call of a sequence, in order. *)
Fixpoint states_after (self : SmartphoneEnvironment) (calls : list Call)
    : list SmartphoneEnvironment :=
  match calls with
  | [] => []
  | c :: calls' => after_call self c :: states_after (after_call self c) calls'
  end.

(** [len(price_history) == len(stock_history) == time + 1] *)
Definition histories_aligned (self : SmartphoneEnvironment) : Prop :=
  length (price_history self) = length (stock_history self)
  ∧ length (stock_history self) = S (time self).

End Program.

Definition drift_draw : float := 0x1.fffffffffffffp-1%float.

(** The largest double below 1, [1 - 2^-53]: the largest value
    [random.random()] can return. *)
Definition below_one : float := 0x1.fffffffffffffp-1%float.

(** A table of three positive doubles, [1/2], [1/4 + 2^-54] and
    [1/4 - 2^-53], whose sum is [1 - 2^-54]: below 1 and above every double
    below 1. *)
Definition tight_dist : list (Z * float) :=
  [(0%Z, 0x1p-1%float); (1%Z, 0x1.0000000000001p-2%float);
   (2%Z, 0x1.ffffffffffffcp-3%float)].

Section Derived.
Context {F : Type} `{PyFloat F}.
Local Open Scope py_scope.

(** The value of [ranreal] once the loop of [select_from_dist] has passed
    every entry of a table: [ranreal -= prob] for each entry, in order. *)
Definition remainder {K : Type} (item_prob_dist : list (K * F)) (ranreal : F) : F :=
  foldl (λ r ip, r - ip.2) ranreal item_prob_dist.

(** The environment after a whole sequence of calls. *)
Definition final_state (self : SmartphoneEnvironment) (calls : list Call)
    : SmartphoneEnvironment :=
  foldl after_call self calls.

(** A call whose sampler returns, i.e. a call that does not raise. *)
Definition returns (c : Call) : Prop :=
  ∃ daily_sales : Z, select_from_dist daily_sales_dist (call_ranreal c) = Ok daily_sales.

(** The expenditure booked for a list of (order, observed price) pairs, in
    the order of the decisions: [total_spent += tobuy * current_price],
    starting from 0. *)
Definition booked (orders : list (Z * F)) : F :=
  foldl (λ acc bp, acc + of_int bp.1 * bp.2) (of_int 0) orders.

(** [self.price_delta[t % len(self.price_delta)]] *)
Definition delta_at (t : nat) : Z := price_delta !!! (t mod length price_delta).

(** [sum(l)] for a list of ints. *)
Definition Zsum (l : list Z) : Z := foldr Z.add 0%Z l.

End Derived.

(** ** Vocabulary of binary64 rounding

    Python's float operations are those of IEEE 754 binary64, which the
    standard library specifies on [spec_float] ([SFadd], [SFsub], [SFmul],
    [SFcompare]).  The non-negative finite doubles are read as integers, in
    units of [2^-1074] (the smallest positive double), and the rounding of
    the operations is read on these integers. *)

Section Rounding.
Local Open Scope Z_scope.

(** The shift record of [shr_1] after [k] shifts of the mantissa [M]: the
    quotient, the round bit and the sticky bit. *)
Definition shifted (M : Z) (k : Z) : shr_record :=
  {| shr_m := M / 2 ^ k;
     shr_r := Z.leb (2 ^ (k - 1)) (M mod 2 ^ k);
     shr_s := negb (Z.eqb ((M mod 2 ^ k) mod 2 ^ (k - 1)) 0) |}.

(** [M / 2^k] rounded to the nearest integer, ties to even. *)
Definition round_shift (M k : Z) : Z :=
  let q := M / 2 ^ k in
  let rem := M mod 2 ^ k in
  if (2 ^ (k - 1) <? rem) || ((rem =? 2 ^ (k - 1)) && Z.odd q) then q + 1 else q.

(** Whether [round_shift] rounds the quotient [q] with remainder [rem] up. *)
Definition round_up (q rem k : Z) : bool :=
  (2 ^ (k - 1) <? rem) || ((rem =? 2 ^ (k - 1)) && Z.odd q).

(** A non-negative integer rounded to 53 significant bits, ties to even:
    what a binary64 operation makes of its exact result, in units of
    [2^-1074]. *)
Definition rnd (N : Z) : Z :=
  let d := Z.log2 N + 1 in
  if d <=? 53 then N else round_shift N (d - 53) * 2 ^ (d - 53).

(** A double that is a zero or a positive finite number. *)
Definition SFnn (x : spec_float) : Prop :=
  match x with
  | S754_zero _ => True
  | S754_finite false m e => bounded prec emax m e = true
  | _ => False
  end.

(** The magnitude of a finite double in units of [2^-1074]. *)
Definition SFval (x : spec_float) : Z :=
  match x with
  | S754_finite _ m e => Zpos m * 2 ^ (e + 1074)
  | _ => 0
  end.

(** The same on primitive floats. *)
Definition nn64 (x : float) : Prop := SFnn (Prim2SF x).
Definition val64 (x : float) : Z := SFval (Prim2SF x).

(** A double that is [>= 0]: zero, positive finite or [+inf]. *)
Definition nonneg64 (x : float) : Prop := nn64 x ∨ Prim2SF x = S754_infinity false.

(** Every probability of the table lies in [[0, 1]]. *)
Definition unit_probs {K : Type} (dist : list (K * float)) : Prop :=
  Forall (λ ip, (of_int 0 <=? ip.2)%py = true ∧ (ip.2 <=? of_int 1)%py = true) dist.

(** The sum of the probabilities of a table as a rational number, without
    rounding. *)
Definition exact_sum {K : Type} (dist : list (K * float)) : Q :=
  foldr Qplus 0%Q (Q_of_float <$> dist.*2).

(** The same sum in units of [2^-1074]. *)
Definition scaled_sum {K : Type} (dist : list (K * float)) : Z :=
  foldr Z.add 0 (val64 <$> dist.*2).

(** [(n + 1) * 2^-53]: what the subtractions of a table of [n] entries can
    lose to rounding, plus the distance from the largest draw to 1. *)
Definition margin (n : nat) : Q := inject_Z (Z.of_nat n + 1) * (1 # 9007199254740992).

End Rounding.

(** Linear arithmetic over the exact implementation: the interface's
    operations are unfolded to those of [Q] first. *)
Ltac exact_arith :=
  cbn [of_int lit fadd fsub fmul exact] in *; unfold inject_Z in *; lra.

(** Linear arithmetic with the powers of two taken as unknowns. *)
Ltac gen_pows :=
  repeat match goal with
  | H : context [Z.pow 2 ?x] |- _ =>
      let p := fresh "p" in set (p := Z.pow 2 x) in *; clearbody p
  | |- context [Z.pow 2 ?x] =>
      let p := fresh "p" in set (p := Z.pow 2 x) in *; clearbody p
  end.
Ltac plia := gen_pows; lia.

(** * Properties *)

(** ** The sampler *)

Lemma Qlt_bool_iff (x y : Q) : Qlt_bool x y = true ↔ (x < y)%Q.
Proof.
  unfold Qlt_bool. rewrite negb_true_iff, <- not_true_iff_false, Qle_bool_iff.
  split; [apply Qnot_le_lt | apply Qlt_not_le].
Qed.

Lemma Qlt_bool_false (x y : Q) : Qlt_bool x y = false ↔ (y <= x)%Q.
Proof.
  unfold Qlt_bool. by rewrite negb_false_iff, Qle_bool_iff.
Qed.

Section ExactSampler.
Context {K : Type}.
Implicit Types (dist : list (K * Q)) (r : Q).
Local Open Scope Q_scope.

Lemma sum_probs_from dist (a : Q) :
  foldl (λ acc ip, fadd acc ip.2) a dist == a + sum_probs dist.
Proof.
  unfold sum_probs. revert a.
  induction dist as [|[item prob] dist IH]; intros a; simpl.
  - exact_arith.
  - rewrite (IH (a + prob)), (IH (0 + prob)). exact_arith.
Qed.

Lemma sum_probs_cons (item : K) (prob : Q) dist :
  sum_probs ((item, prob) :: dist) == prob + sum_probs dist.
Proof.
  unfold sum_probs at 1. simpl. rewrite sum_probs_from. exact_arith.
Qed.

(** Below the total mass the cumulative test succeeds at some entry. *)
Lemma select_below_sum dist r :
  nonneg_probs dist → 0 <= r → r < sum_probs dist →
  ∃ item, select_from_dist dist r = Ok item ∧ item ∈ dist.*1.
Proof.
  intros Hnn. revert r.
  induction Hnn as [|[item prob] dist Hp Hnn IH]; intros r Hr Hlt.
  - exfalso. revert Hlt. change (sum_probs []) with 0. exact_arith.
  - rewrite sum_probs_cons in Hlt. simpl.
    destruct (Qlt_bool r prob) eqn:Htest.
    + exists item. split; [done | by left].
    + apply Qlt_bool_false in Htest.
      destruct (IH (r - prob)) as (item' & Hsel & Hin); [exact_arith | exact_arith |].
      exists item'. split; [done | by right].
Qed.

End ExactSampler.

Lemma select_from_dist_elem {F : Type} `{PyFloat F} {K : Type}
    (dist : list (K * F)) (r : F) (item : K) :
  select_from_dist dist r = Ok item → item ∈ dist.*1.
Proof.
  revert r. induction dist as [|[item' prob'] dist IH]; intros r; simpl; [done |].
  destruct (r <? prob')%py.
  - intros [= ->]. by left.
  - intros Hsel. right. by apply (IH _ Hsel).
Qed.

(** ** binary64 rounding

    The operations of [SpecFloat] on non-negative doubles, read on the
    values in units of [2^-1074]: a comparison compares the values, and a
    difference or a sum is the rounding [rnd] of the exact result. *)

Section Binary64.
Local Open Scope Z_scope.

(** *** Digits *)
Lemma digits2_pos_bounds (m : positive) :
  2 ^ (Zpos (digits2_pos m) - 1) ≤ Zpos m < 2 ^ Zpos (digits2_pos m).
Proof.
  induction m as [m IH|m IH|]; simpl digits2_pos.
  - rewrite Pos2Z.inj_succ. change (Zpos m~1) with (2 * Zpos m + 1).
    replace (Z.succ (Zpos (digits2_pos m)) - 1) with (Z.succ (Zpos (digits2_pos m) - 1)) by lia.
    rewrite !Z.pow_succ_r by lia. plia.
  - rewrite Pos2Z.inj_succ. change (Zpos m~0) with (2 * Zpos m).
    replace (Z.succ (Zpos (digits2_pos m)) - 1) with (Z.succ (Zpos (digits2_pos m) - 1)) by lia.
    rewrite !Z.pow_succ_r by lia. plia.
  - simpl. lia.
Qed.

Lemma digits2_pos_unique (m : positive) (d : Z) :
  2 ^ (d - 1) ≤ Zpos m < 2 ^ d → Zpos (digits2_pos m) = d.
Proof.
  intros [Hlo Hhi]. pose proof (digits2_pos_bounds m) as [Hlo' Hhi'].
  destruct (Z.lt_trichotomy (Zpos (digits2_pos m)) d) as [Hlt | [Heq | Hgt]]; [| done |].
  - assert (2 ^ Zpos (digits2_pos m) ≤ 2 ^ (d - 1)) by (apply Z.pow_le_mono_r; lia). lia.
  - assert (0 < d). { destruct (Z.le_gt_cases d 0) as [Hd|]; [| done].
      destruct (Z.eq_dec d 0) as [-> | ]; [simpl in *; lia |].
      rewrite (Z.pow_neg_r 2 d) in Hhi by lia. lia. }
    assert (2 ^ d ≤ 2 ^ (Zpos (digits2_pos m) - 1)) by (apply Z.pow_le_mono_r; lia). plia.
Qed.

(** *** Iterated shifts *)
Lemma iter_pos_nat {A} (f : A → A) (p : positive) (x : A) :
  SpecFloat.iter_pos f p x = Nat.iter (Pos.to_nat p) f x.
Proof.
  revert x. induction p as [p IH|p IH|]; intros x; simpl SpecFloat.iter_pos.
  - rewrite !IH, Pos2Nat.inj_xI.
    replace (S (2 * Pos.to_nat p))%nat with (Pos.to_nat p + (Pos.to_nat p + 1))%nat by lia.
    rewrite !Nat.iter_add. done.
  - rewrite !IH, Pos2Nat.inj_xO.
    replace (2 * Pos.to_nat p)%nat with (Pos.to_nat p + Pos.to_nat p)%nat by lia.
    by rewrite Nat.iter_add.
  - done.
Qed.

(** *** Shifting a mantissa *)
Lemma shr_1_nonneg (m : Z) (r s : bool) :
  0 ≤ m →
  shr_1 {| shr_m := m; shr_r := r; shr_s := s |}
  = {| shr_m := m / 2; shr_r := Z.odd m; shr_s := r || s |}.
Proof.
  intros Hm. destruct m as [|p|p]; [done | | lia].
  destruct p as [p|p|]; simpl shr_1.
  - f_equal. change (Zpos p~1) with (2 * Zpos p + 1). apply Z.div_unique with 1; lia.
  - f_equal. change (Zpos p~0) with (2 * Zpos p). apply Z.div_unique with 0; lia.
  - done.
Qed.

Lemma odd_mod2 (a : Z) : Z.odd a = (1 <=? a mod 2).
Proof.
  rewrite Zmod_odd. by destruct (Z.odd a).
Qed.

Lemma shifted_first (M : Z) :
  0 ≤ M → shr_1 {| shr_m := M; shr_r := false; shr_s := false |} = shifted M 1.
Proof.
  intros HM. rewrite shr_1_nonneg by done. unfold shifted.
  change (2 ^ 1) with 2. change (2 ^ (1 - 1)) with 1.
  rewrite Z.mod_1_r, odd_mod2. done.
Qed.

Lemma shifted_step (M k : Z) :
  0 ≤ M → 1 ≤ k → shr_1 (shifted M k) = shifted M (k + 1).
Proof.
  intros HM Hk. unfold shifted.
  assert (HP : 0 < 2 ^ (k - 1)) by (apply Z.pow_pos_nonneg; lia).
  assert (H2k : 2 ^ k = 2 * 2 ^ (k - 1)).
  { replace k with (Z.succ (k - 1)) at 1 by lia. apply Z.pow_succ_r. lia. }
  assert (H2k1 : 2 ^ (k + 1) = 2 ^ k * 2).
  { replace (k + 1) with (Z.succ k) by lia. rewrite Z.pow_succ_r by lia. lia. }
  replace (k + 1 - 1) with k by lia.
  rewrite shr_1_nonneg by (apply Z.div_pos; lia).
  assert (Hrem : M mod 2 ^ (k + 1) = M mod 2 ^ k + 2 ^ k * ((M / 2 ^ k) mod 2)).
  { rewrite H2k1. apply Z.rem_mul_r; lia. }
  pose proof (Z.mod_pos_bound M (2 ^ k) ltac:(lia)) as Hr.
  pose proof (Z.mod_pos_bound (M / 2 ^ k) 2 ltac:(lia)) as Hb.
  f_equal.
  - rewrite H2k1. rewrite Z.div_div by lia. done.
  - rewrite odd_mod2, Hrem.
    destruct (Z.leb_spec 1 ((M / 2 ^ k) mod 2)), (Z.leb_spec (2 ^ k) (M mod 2 ^ k + 2 ^ k * ((M / 2 ^ k) mod 2)));
      try done; nia.
  - assert (Hmm : (M mod 2 ^ (k + 1)) mod 2 ^ k = M mod 2 ^ k).
    { rewrite Hrem, Z.mul_comm, Z.mod_add by lia. apply Z.mod_mod. lia. }
    rewrite Hmm.
    destruct (Z.eqb_spec (M mod 2 ^ k) 0) as [E0 | N0].
    + rewrite E0, Z.mod_0_l by lia. simpl.
      destruct (Z.leb_spec (2 ^ (k - 1)) 0); [lia | done].
    + destruct (Z.leb_spec (2 ^ (k - 1)) (M mod 2 ^ k)); [done |].
      rewrite Z.mod_small by lia.
      by destruct (Z.eqb_spec (M mod 2 ^ k) 0).
Qed.

Lemma iter_shr_1 (M : Z) (p : positive) :
  0 ≤ M →
  SpecFloat.iter_pos shr_1 p {| shr_m := M; shr_r := false; shr_s := false |}
  = shifted M (Zpos p).
Proof.
  intros HM. rewrite iter_pos_nat.
  rewrite <- (positive_nat_Z p).
  destruct (Pos2Nat.is_succ p) as [n ->].
  induction n as [|n IH].
  - simpl. by apply shifted_first.
  - change (Nat.iter (S (S n)) shr_1 ?x) with (shr_1 (Nat.iter (S n) shr_1 x)).
    rewrite IH, shifted_step by lia. f_equal. lia.
Qed.

(** *** Rounding a shifted mantissa *)
Lemma round_shifted (M k : Z) :
  0 ≤ M → 1 ≤ k →
  round_nearest_even (shr_m (shifted M k)) (loc_of_shr_record (shifted M k))
  = round_shift M k.
Proof.
  intros HM Hk. unfold shifted, round_shift. simpl.
  assert (HP : 0 < 2 ^ (k - 1)) by (apply Z.pow_pos_nonneg; lia).
  assert (H2k : 2 ^ k = 2 * 2 ^ (k - 1)).
  { replace k with (Z.succ (k - 1)) at 1 by lia. apply Z.pow_succ_r. lia. }
  pose proof (Z.mod_pos_bound M (2 ^ k) ltac:(lia)) as Hr.
  set (rem := M mod 2 ^ k) in *. set (q := M / 2 ^ k). set (P := 2 ^ (k - 1)) in *.
  set (K := 2 ^ k) in *. clearbody rem q P K.
  destruct (Z.leb_spec P rem) as [Hle | Hlt].
  - destruct (Z.eqb_spec (rem mod P) 0) as [Hz | Hnz]; simpl.
    + assert (rem = P).
      { apply Z.mod_divide in Hz as [c Hc]; [| lia].
        assert (c = 1) by nia. subst c. lia. }
      subst rem. rewrite Z.ltb_irrefl, Z.eqb_refl. simpl.
      rewrite <- Z.negb_odd. by destruct (Z.odd q).
    + assert (rem ≠ P) by (intros ->; rewrite Z.mod_same in Hnz; lia).
      destruct (Z.ltb_spec P rem); [done | lia].
  - destruct (Z.ltb_spec P rem); [lia |]. destruct (Z.eqb_spec rem P); [lia |]. simpl.
    by destruct (negb (rem mod P =? 0)).
Qed.

Lemma round_shift_bounds (M k : Z) :
  0 ≤ M → 0 ≤ k → M / 2 ^ k ≤ round_shift M k ≤ M / 2 ^ k + 1.
Proof. intros. unfold round_shift. destruct (_ || _); lia. Qed.

Lemma div_pow2_bounds (M d k : Z) :
  0 ≤ k ≤ d - 1 → 2 ^ (d - 1) ≤ M < 2 ^ d →
  2 ^ (d - 1 - k) ≤ M / 2 ^ k < 2 ^ (d - k).
Proof.
  intros Hk [Hlo Hhi].
  assert (0 < 2 ^ k) by (apply Z.pow_pos_nonneg; lia).
  assert (2 ^ (d - 1) = 2 ^ (d - 1 - k) * 2 ^ k) by (rewrite <- Z.pow_add_r by lia; f_equal; lia).
  assert (2 ^ d = 2 ^ (d - k) * 2 ^ k) by (rewrite <- Z.pow_add_r by lia; f_equal; lia).
  split.
  - apply Z.div_le_lower_bound; [lia | plia].
  - apply Z.div_lt_upper_bound; [lia | plia].
Qed.

(** *** Binary64 parameters *)
Lemma fexp64 (z : Z) : fexp prec emax z = Z.max (z - 53) (-1074).
Proof. reflexivity. Qed.

Lemma pos_iter_xO (m d : positive) : Zpos (Pos.iter xO m d) = Zpos m * 2 ^ Zpos d.
Proof.
  induction d as [|d IH] using Pos.peano_ind.
  - simpl. lia.
  - rewrite Pos.iter_succ, Pos2Z.inj_succ, Z.pow_succ_r by lia.
    change (Zpos (Pos.iter xO m d)~0) with (2 * Zpos (Pos.iter xO m d)). rewrite IH. lia.
Qed.

(** A mantissa that is already at its canonical exponent is kept. *)
Lemma binary_round_aux_canonical (s : bool) (M : positive) (e : Z) :
  fexp prec emax (Zpos (digits2_pos M) + e) = e →
  binary_round_aux prec emax s (Zpos M) e loc_Exact
  = if e <=? 971 then S754_finite s M e else S754_infinity s.
Proof.
  intros Hcan. unfold binary_round_aux, shr_fexp. simpl Zdigits2.
  rewrite Hcan, Z.sub_diag. simpl. rewrite Hcan, Z.sub_diag. simpl. done.
Qed.

(** A mantissa with more than 53 digits is shifted and rounded. *)
Lemma binary_round_aux_long (s : bool) (M : positive) (e : Z) :
  53 < Zpos (digits2_pos M) → -1074 ≤ e →
  let n := Zpos (digits2_pos M) - 53 in
  let q := round_shift (Zpos M) n in
  binary_round_aux prec emax s (Zpos M) e loc_Exact
  = if q =? 9007199254740992
    then (if e + n + 1 <=? 971 then S754_finite s 4503599627370496 (e + n + 1)
          else S754_infinity s)
    else (if e + n <=? 971 then S754_finite s (Z.to_pos q) (e + n) else S754_infinity s).
Proof.
  intros Hd He. simpl.
  pose proof (digits2_pos_bounds M) as HM.
  remember (Zpos (digits2_pos M) - 53) as n eqn:Hn.
  assert (Hq : 4503599627370496 ≤ round_shift (Zpos M) n ≤ 9007199254740992).
  { pose proof (round_shift_bounds (Zpos M) n ltac:(lia) ltac:(lia)) as Hb.
    pose proof (div_pow2_bounds (Zpos M) (Zpos (digits2_pos M)) n ltac:(lia) HM) as Hdv.
    replace (Zpos (digits2_pos M) - 1 - n) with 52 in Hdv by lia.
    replace (Zpos (digits2_pos M) - n) with 53 in Hdv by lia.
    change (2 ^ 52) with 4503599627370496 in Hdv.
    change (2 ^ 53) with 9007199254740992 in Hdv. lia. }
  unfold binary_round_aux, shr_fexp. simpl Zdigits2.
  rewrite fexp64.
  replace (Z.max (Zpos (digits2_pos M) + e - 53) (-1074) - e) with n by lia.
  destruct n as [|p|p]; [lia | | lia].
  unfold shr at 1. simpl shr_record_of_loc.
  rewrite iter_shr_1 by lia. rewrite round_shifted by lia.
  remember (round_shift (Zpos M) (Zpos p)) as q eqn:Hqdef.
  destruct q as [|qp|qp]; [lia | | lia].
  simpl loc_of_shr_record. simpl round_nearest_even. simpl Zdigits2.
  destruct (Z.eqb_spec (Zpos qp) 9007199254740992) as [Heq | Hne].
  - injection Heq as ->. rewrite fexp64.
    change (digits2_pos 9007199254740992) with 54%positive.
    replace (Z.max (54 + (e + Zpos p) - 53) (-1074) - (e + Zpos p)) with 1 by lia.
    simpl. done.
  - assert (Hdq : Zpos (digits2_pos qp) = 53).
    { apply digits2_pos_unique. change (2 ^ (53 - 1)) with 4503599627370496.
      change (2 ^ 53) with 9007199254740992. lia. }
    rewrite fexp64, Hdq.
    replace (Z.max (53 + (e + Zpos p) - 53) (-1074) - (e + Zpos p)) with 0 by lia.
    simpl. done.
Qed.

(** *** Rounding an integer to 53 bits *)
Lemma digits2_pos_log2 (M : positive) : Zpos (digits2_pos M) = Z.log2 (Zpos M) + 1.
Proof.
  pose proof (digits2_pos_bounds M) as HM.
  symmetry. rewrite (Z.log2_unique (Zpos M) (Zpos (digits2_pos M) - 1)); [lia | lia |].
  replace (Z.succ (Zpos (digits2_pos M) - 1)) with (Zpos (digits2_pos M)) by lia. done.
Qed.

Lemma round_shift_scale (M n c : Z) :
  0 ≤ M → 1 ≤ n → 0 ≤ c →
  round_shift (M * 2 ^ c) (n + c) = round_shift M n.
Proof.
  intros HM Hn Hc. unfold round_shift.
  assert (HC : 0 < 2 ^ c) by (apply Z.pow_pos_nonneg; lia).
  assert (HP : 0 < 2 ^ n) by (apply Z.pow_pos_nonneg; lia).
  rewrite (Z.pow_add_r 2 n c) by lia.
  replace (n + c - 1) with (n - 1 + c) by lia. rewrite (Z.pow_add_r 2 (n - 1) c) by lia.
  rewrite Z.div_mul_cancel_r by lia. rewrite Z.mul_mod_distr_r by lia.
  set (q := M / 2 ^ n). set (rem := M mod 2 ^ n). set (P := 2 ^ (n - 1)). set (C := 2 ^ c) in *.
  clearbody q rem P C.
  assert ((P * C <? rem * C) = (P <? rem)) as ->.
  { destruct (Z.ltb_spec (P * C) (rem * C)), (Z.ltb_spec P rem); try done; nia. }
  assert ((rem * C =? P * C) = (rem =? P)) as ->.
  { destruct (Z.eqb_spec (rem * C) (P * C)), (Z.eqb_spec rem P); try done; nia. }
  done.
Qed.

Lemma rnd_0 : rnd 0 = 0.
Proof. reflexivity. Qed.

(** Values with at most 53 significant bits are fixed by the rounding. *)
Lemma rnd_representable (m c : Z) :
  0 < m → Z.log2 m + 1 ≤ 53 → 0 ≤ c → rnd (m * 2 ^ c) = m * 2 ^ c.
Proof.
  intros Hm Hd Hc. unfold rnd. rewrite Z.log2_mul_pow2 by lia.
  destruct (Z.leb_spec (c + Z.log2 m + 1) 53) as [Hle | Hgt]; [done |].
  set (k := c + Z.log2 m + 1 - 53).
  assert (Hk : 1 ≤ k ≤ c) by lia.
  unfold round_shift.
  assert (HK : 0 < 2 ^ k) by (apply Z.pow_pos_nonneg; lia).
  assert (Hsplit : 2 ^ c = 2 ^ (c - k) * 2 ^ k).
  { rewrite <- Z.pow_add_r by lia. f_equal. lia. }
  assert (Hrem : (m * 2 ^ c) mod 2 ^ k = 0).
  { rewrite Hsplit, Z.mul_assoc. apply Z.mod_mul. lia. }
  assert (Hq : (m * 2 ^ c) / 2 ^ k = m * 2 ^ (c - k)).
  { rewrite Hsplit, Z.mul_assoc. apply Z.div_mul. lia. }
  rewrite Hrem, Hq.
  assert (HP : 0 < 2 ^ (k - 1)) by (apply Z.pow_pos_nonneg; lia).
  destruct (Z.ltb_spec (2 ^ (k - 1)) 0); [lia |].
  destruct (Z.eqb_spec 0 (2 ^ (k - 1))); [lia |]. simpl.
  rewrite Hsplit. lia.
Qed.

Lemma rnd_long (N : Z) :
  0 < N → 53 < Z.log2 N + 1 →
  ∃ q rem k,
    k = Z.log2 N - 52 ∧ 1 ≤ k ∧ N = q * 2 ^ k + rem ∧ 0 ≤ rem < 2 ^ k
    ∧ 4503599627370496 ≤ q < 9007199254740992
    ∧ rnd N = (if round_up q rem k then q + 1 else q) * 2 ^ k.
Proof.
  intros HN Hd. exists (N / 2 ^ (Z.log2 N - 52)), (N mod 2 ^ (Z.log2 N - 52)), (Z.log2 N - 52).
  set (k := Z.log2 N - 52).
  assert (HK : 0 < 2 ^ k) by (apply Z.pow_pos_nonneg; lia).
  split; [done |]. split; [lia |].
  split; [rewrite Z.mul_comm; apply Z.div_mod; lia |].
  split; [apply Z.mod_pos_bound; lia |].
  split.
  - pose proof (Z.log2_spec N HN) as Hlog.
    pose proof (div_pow2_bounds N (Z.log2 N + 1) k ltac:(lia)
                  ltac:(replace (Z.log2 N + 1 - 1) with (Z.log2 N) by lia;
                        replace (Z.log2 N + 1) with (Z.succ (Z.log2 N)) by lia; done)) as Hdv.
    replace (Z.log2 N + 1 - 1 - k) with 52 in Hdv by lia.
    replace (Z.log2 N + 1 - k) with 53 in Hdv by lia.
    change (2 ^ 52) with 4503599627370496 in Hdv.
    change (2 ^ 53) with 9007199254740992 in Hdv. done.
  - unfold rnd. destruct (Z.leb_spec (Z.log2 N + 1) 53); [lia |].
    replace (Z.log2 N + 1 - 53) with k by lia. unfold round_shift, round_up.
    by destruct (_ || _).
Qed.

Lemma rnd_short (N : Z) : Z.log2 N + 1 ≤ 53 → rnd N = N.
Proof. intros Hd. unfold rnd. by destruct (Z.leb_spec (Z.log2 N + 1) 53); [| lia]. Qed.

(** The rounding is monotone. *)
Lemma rnd_mono (N1 N2 : Z) : 0 ≤ N1 ≤ N2 → rnd N1 ≤ rnd N2.
Proof.
  intros [H1 H12].
  destruct (Z.eq_dec N1 0) as [-> | Hnz].
  { rewrite rnd_0. destruct (Z.le_gt_cases (Z.log2 N2 + 1) 53) as [Hs | Hl].
    - rewrite rnd_short by done. lia.
    - destruct (rnd_long N2 ltac:(destruct N2; simpl in *; lia) Hl)
        as (q & rem & k & _ & Hk & _ & _ & Hq & ->).
      assert (0 < 2 ^ k) by (apply Z.pow_pos_nonneg; lia).
      destruct (round_up q rem k); nia. }
  assert (HN1 : 0 < N1) by lia. assert (HN2 : 0 < N2) by lia.
  pose proof (Z.log2_le_mono N1 N2 H12) as Hlog.
  pose proof (Z.log2_spec N1 HN1) as Hs1. pose proof (Z.log2_spec N2 HN2) as Hs2.
  destruct (Z.le_gt_cases (Z.log2 N2 + 1) 53) as [Hd2 | Hd2].
  { rewrite !rnd_short by lia. done. }
  destruct (rnd_long N2 HN2 Hd2) as (q2 & rem2 & k2 & Hk2 & Hk2' & HN2' & Hrem2 & Hq2 & ->).
  assert (HK2 : 0 < 2 ^ k2) by (apply Z.pow_pos_nonneg; lia).
  assert (Hlow2 : 2 ^ Z.log2 N2 = 4503599627370496 * 2 ^ k2).
  { change 4503599627370496 with (2 ^ 52). rewrite <- Z.pow_add_r by lia. f_equal. lia. }
  assert (Hge2 : 2 ^ Z.log2 N2 ≤ (if round_up q2 rem2 k2 then q2 + 1 else q2) * 2 ^ k2).
  { rewrite Hlow2. destruct (round_up q2 rem2 k2); nia. }
  destruct (Z.le_gt_cases (Z.log2 N1 + 1) 53) as [Hd1 | Hd1].
  { rewrite rnd_short by done.
    assert (2 ^ Z.succ (Z.log2 N1) ≤ 2 ^ Z.log2 N2) by (apply Z.pow_le_mono_r; lia).
    lia. }
  destruct (rnd_long N1 HN1 Hd1) as (q1 & rem1 & k1 & Hk1 & Hk1' & HN1' & Hrem1 & Hq1 & ->).
  assert (HK1 : 0 < 2 ^ k1) by (apply Z.pow_pos_nonneg; lia).
  destruct (Z.eq_dec (Z.log2 N1) (Z.log2 N2)) as [Heq | Hne].
  - assert (Hkk : k2 = k1) by lia. rewrite Hkk in *. clear Hkk Hk2 Hk2'.
    unfold round_up.
    set (K := 2 ^ k1) in *. set (P := 2 ^ (k1 - 1)) in *. clearbody K P.
    destruct (Z.lt_trichotomy q1 q2) as [Hlt | [Hqq | Hgt]].
    + destruct (_ || _), (_ || _); nia.
    + subst q2. assert (rem1 ≤ rem2) by lia.
      destruct (Z.ltb_spec P rem1), (Z.ltb_spec P rem2),
        (Z.eqb_spec rem1 P), (Z.eqb_spec rem2 P), (Z.odd q1); simpl; try lia.
    + nia.
  - assert (Hup1 : (if round_up q1 rem1 k1 then q1 + 1 else q1) * 2 ^ k1
                   ≤ 2 ^ Z.succ (Z.log2 N1)).
    { replace (Z.succ (Z.log2 N1)) with (53 + k1) by lia.
      rewrite Z.pow_add_r by lia. change (2 ^ 53) with 9007199254740992.
      destruct (round_up q1 rem1 k1); nia. }
    assert (2 ^ Z.succ (Z.log2 N1) ≤ 2 ^ Z.log2 N2) by (apply Z.pow_le_mono_r; lia).
    lia.
Qed.

(** The rounding loses less than one unit of the last kept place. *)
Lemma rnd_lower (N : Z) (c : Z) :
  0 ≤ N < 2 ^ c → 53 ≤ c → N - 2 ^ (c - 53) < rnd N.
Proof.
  intros [HN Hlt] Hc.
  assert (HC : 0 < 2 ^ (c - 53)) by (apply Z.pow_pos_nonneg; lia).
  destruct (Z.le_gt_cases (Z.log2 N + 1) 53) as [Hs | Hl].
  { rewrite rnd_short by done. lia. }
  assert (HN0 : 0 < N) by (destruct N; simpl in *; lia).
  destruct (rnd_long N HN0 Hl) as (q & rem & k & Hk & Hk' & HN' & Hrem & Hq & ->).
  assert (Z.log2 N < c) by (apply Z.log2_lt_pow2; lia).
  assert (2 ^ k ≤ 2 ^ (c - 53)) by (apply Z.pow_le_mono_r; lia).
  destruct (round_up q rem k); nia.
Qed.

(** *** Valid mantissa/exponent pairs *)
Lemma bounded_intro (m : positive) (e : Z) :
  fexp prec emax (Zpos (digits2_pos m) + e) = e → e ≤ 971 →
  bounded prec emax m e = true.
Proof.
  intros Hcan He. unfold bounded, canonical_mantissa. rewrite Hcan, Z.eqb_refl. simpl.
  apply Z.leb_le. done.
Qed.

Lemma bounded_elim (m : positive) (e : Z) :
  bounded prec emax m e = true →
  -1074 ≤ e ≤ 971
  ∧ fexp prec emax (Zpos (digits2_pos m) + e) = e
  ∧ Zpos (digits2_pos m) ≤ 53
  ∧ (Zpos (digits2_pos m) = 53 ∨ e = -1074).
Proof.
  unfold bounded, canonical_mantissa. intros [Hc He]%andb_true_iff.
  apply Z.eqb_eq in Hc. apply Z.leb_le in He. change (emax - prec) with 971 in He.
  pose proof Hc as Hc'. rewrite fexp64 in Hc'. lia.
Qed.

Lemma shl_align_value (m : positive) (e ez : Z) :
  ez ≤ e → Zpos (fst (shl_align m e ez)) = Zpos m * 2 ^ (e - ez).
Proof.
  intros Hle. unfold shl_align.
  destruct (ez - e) as [|d|d] eqn:Hd; simpl.
  - replace (e - ez) with 0 by lia. simpl. lia.
  - lia.
  - rewrite pos_iter_xO. f_equal. f_equal. lia.
Qed.

(** What [binary_round] returns for a positive mantissa: the rounded
    value, or [inf] when the rounded value overflows. *)
Lemma binary_round_value (s : bool) (M : positive) (e : Z) :
  -1074 ≤ e →
  (binary_round prec emax s M e = S754_infinity s
   ∧ 2 ^ 2098 ≤ rnd (Zpos M * 2 ^ (e + 1074)))
  ∨ (∃ m' e', binary_round prec emax s M e = S754_finite s m' e'
              ∧ bounded prec emax m' e' = true
              ∧ Zpos m' * 2 ^ (e' + 1074) = rnd (Zpos M * 2 ^ (e + 1074))).
Proof.
  intros He. pose proof (digits2_pos_bounds M) as HM.
  pose proof (digits2_pos_log2 M) as Hlog.
  unfold binary_round.
  destruct (Z.le_gt_cases (Zpos (digits2_pos M)) 53) as [Hd | Hd].
  - (* short mantissa: the value is kept *)
    rewrite (rnd_representable (Zpos M) (e + 1074)) by lia.
    rewrite fexp64.
    set (E := Z.max (Zpos (digits2_pos M) + e - 53) (-1074)).
    assert (HE : E ≤ e) by lia.
    pose proof (shl_align_value M e E HE) as Hval.
    assert (Hsnd : snd (shl_align M e E) = E).
    { unfold shl_align. destruct (E - e) eqn:HEe; simpl; lia. }
    destruct (shl_align M e E) as [mz ez]. simpl in Hval, Hsnd. subst ez.
    assert (HP : 0 < 2 ^ (e - E)) by (apply Z.pow_pos_nonneg; lia).
    assert (Hdz : Zpos (digits2_pos mz) = Zpos (digits2_pos M) + (e - E)).
    { apply digits2_pos_unique. rewrite Hval.
      replace (Zpos (digits2_pos M) + (e - E) - 1)
        with ((Zpos (digits2_pos M) - 1) + (e - E)) by lia.
      rewrite !Z.pow_add_r by lia. nia. }
    assert (Hcan : fexp prec emax (Zpos (digits2_pos mz) + E) = E).
    { rewrite fexp64, Hdz. lia. }
    rewrite (binary_round_aux_canonical s mz E Hcan).
    assert (Hv : Zpos mz * 2 ^ (E + 1074) = Zpos M * 2 ^ (e + 1074)).
    { rewrite Hval. replace (e + 1074) with ((e - E) + (E + 1074)) by lia.
      rewrite (Z.pow_add_r 2 (e - E)) by lia. lia. }
    destruct (Z.leb_spec E 971) as [Hok | Hov].
    + right. exists mz, E. split; [done |]. split; [by apply bounded_intro | done].
    + left. split; [done |]. rewrite <- Hv.
      assert (Hdz53 : Zpos (digits2_pos mz) = 53) by lia.
      pose proof (digits2_pos_bounds mz) as Hmz. rewrite Hdz53 in Hmz.
      change (2 ^ (53 - 1)) with 4503599627370496 in Hmz.
      assert (2 ^ 2046 ≤ 2 ^ (E + 1074)) by (apply Z.pow_le_mono_r; lia).
      assert (2 ^ 2098 = 4503599627370496 * 2 ^ 2046) by reflexivity.
      assert (0 < 2 ^ 2046) by (apply Z.pow_pos_nonneg; lia).
      nia.
  - (* long mantissa: shifted and rounded *)
    rewrite fexp64.
    assert (Hsh : shl_align M e (Z.max (Zpos (digits2_pos M) + e - 53) (-1074)) = (M, e)).
    { unfold shl_align.
      destruct (Z.max (Zpos (digits2_pos M) + e - 53) (-1074) - e) eqn:HEe; try done; lia. }
    rewrite Hsh. rewrite (binary_round_aux_long s M e Hd He).
    set (n := Zpos (digits2_pos M) - 53).
    set (c := e + 1074).
    assert (Hrnd : rnd (Zpos M * 2 ^ c) = round_shift (Zpos M) n * 2 ^ (n + c)).
    { unfold rnd. rewrite Z.log2_mul_pow2 by lia.
      destruct (Z.leb_spec (c + Z.log2 (Zpos M) + 1) 53); [lia |].
      replace (c + Z.log2 (Zpos M) + 1 - 53) with (n + c) by lia.
      rewrite round_shift_scale by lia. done. }
    rewrite Hrnd.
    assert (Hq : 4503599627370496 ≤ round_shift (Zpos M) n ≤ 9007199254740992).
    { pose proof (round_shift_bounds (Zpos M) n ltac:(lia) ltac:(lia)) as Hb.
      pose proof (div_pow2_bounds (Zpos M) (Zpos (digits2_pos M)) n ltac:(lia) HM) as Hdv.
      replace (Zpos (digits2_pos M) - 1 - n) with 52 in Hdv by lia.
      replace (Zpos (digits2_pos M) - n) with 53 in Hdv by lia.
      change (2 ^ 52) with 4503599627370496 in Hdv.
      change (2 ^ 53) with 9007199254740992 in Hdv. lia. }
    set (q := round_shift (Zpos M) n) in *. clearbody q.
    assert (HP : 0 < 2 ^ (n + c)) by (apply Z.pow_pos_nonneg; lia).
    destruct (Z.eqb_spec q 9007199254740992) as [-> | Hne].
    + assert (Hv : 4503599627370496 * 2 ^ (e + n + 1 + 1074) = 9007199254740992 * 2 ^ (n + c)).
      { replace (e + n + 1 + 1074) with (Z.succ (n + c)) by lia.
        rewrite Z.pow_succ_r by lia. lia. }
      destruct (Z.leb_spec (e + n + 1) 971) as [Hok | Hov].
      * right. exists 4503599627370496%positive, (e + n + 1).
        split; [done |]. split; [| done].
        apply bounded_intro; [| done]. rewrite fexp64.
        change (Zpos (digits2_pos 4503599627370496)) with 53. lia.
      * left. split; [done |].
        assert (2 ^ 2045 ≤ 2 ^ (n + c)) by (apply Z.pow_le_mono_r; lia).
        assert (2 ^ 2098 = 9007199254740992 * 2 ^ 2045) by reflexivity.
        assert (0 < 2 ^ 2045) by (apply Z.pow_pos_nonneg; lia).
        nia.
    + destruct q as [|qp|qp]; [lia | | lia].
      assert (Hdq : Zpos (digits2_pos qp) = 53).
      { apply digits2_pos_unique. change (2 ^ (53 - 1)) with 4503599627370496.
        change (2 ^ 53) with 9007199254740992. lia. }
      destruct (Z.leb_spec (e + n) 971) as [Hok | Hov].
      * right. exists qp, (e + n). simpl Z.to_pos.
        split; [done |]. split.
        -- apply bounded_intro; [| done]. rewrite fexp64, Hdq. lia.
        -- f_equal. f_equal. lia.
      * left. split; [done |].
        assert (2 ^ 2046 ≤ 2 ^ (n + c)) by (apply Z.pow_le_mono_r; lia).
        assert (2 ^ 2098 = 4503599627370496 * 2 ^ 2046) by reflexivity.
        assert (0 < 2 ^ 2046) by (apply Z.pow_pos_nonneg; lia).
        nia.
Qed.

(** *** Non-negative finite doubles and their values *)
Lemma SFval_nonneg (x : spec_float) : SFnn x → 0 ≤ SFval x.
Proof.
  destruct x as [| | |[] m e]; simpl; try done. intros (He & _)%bounded_elim.
  assert (0 < 2 ^ (e + 1074)) by (apply Z.pow_pos_nonneg; lia). nia.
Qed.

Lemma SFval_finite_pos (s : bool) (m : positive) (e : Z) :
  -1074 ≤ e → 0 < SFval (S754_finite s m e).
Proof.
  intros He. simpl. assert (0 < 2 ^ (e + 1074)) by (apply Z.pow_pos_nonneg; lia). nia.
Qed.

Lemma SFval_representable (x : spec_float) : SFnn x → rnd (SFval x) = SFval x.
Proof.
  destruct x as [| | |[] m e]; simpl; try done.
  intros (He & _ & Hd & _)%bounded_elim.
  apply rnd_representable; [lia | rewrite <- digits2_pos_log2; lia | lia].
Qed.

Lemma SFval_lt_overflow (x : spec_float) : SFnn x → SFval x < 2 ^ 2098.
Proof.
  destruct x as [| | |[] m e]; simpl; try done.
  intros (He & _ & Hd & _)%bounded_elim.
  pose proof (digits2_pos_bounds m) as [_ Hm].
  assert (2 ^ Zpos (digits2_pos m) ≤ 2 ^ 53) by (apply Z.pow_le_mono_r; lia).
  assert (2 ^ (e + 1074) ≤ 2 ^ 2045) by (apply Z.pow_le_mono_r; lia).
  assert (0 < 2 ^ (e + 1074)) by (apply Z.pow_pos_nonneg; lia).
  assert (2 ^ 2098 = 2 ^ 53 * 2 ^ 2045) by reflexivity.
  assert (0 < 2 ^ 53) by done.
  nia.
Qed.

(** The comparison of valid non-negative doubles is the comparison of values. *)
Lemma SFcompare_val (x y : spec_float) :
  SFnn x → SFnn y → SFcompare x y = Some (SFval x ?= SFval y).
Proof.
  destruct x as [| | |[] mx ex], y as [| | |[] my ey]; cbn [SFnn SFval SFcompare]; try done.
  - intros _ (He & _)%bounded_elim.
    pose proof (SFval_finite_pos false my ey ltac:(lia)) as Hp. cbn [SFval] in Hp.
    destruct (Z.compare_spec 0 (Zpos my * 2 ^ (ey + 1074))); [lia | done | lia].
  - intros (He & _)%bounded_elim _.
    pose proof (SFval_finite_pos false mx ex ltac:(lia)) as Hp. cbn [SFval] in Hp.
    destruct (Z.compare_spec (Zpos mx * 2 ^ (ex + 1074)) 0); [lia | lia | done].
  - intros (Hex & _ & Hdx & Hnx)%bounded_elim (Hey & _ & Hdy & Hny)%bounded_elim.
    pose proof (digits2_pos_bounds mx) as Hmx. pose proof (digits2_pos_bounds my) as Hmy.
    f_equal.
    assert (Hpx : 0 < 2 ^ (ex + 1074)) by (apply Z.pow_pos_nonneg; lia).
    assert (Hpy : 0 < 2 ^ (ey + 1074)) by (apply Z.pow_pos_nonneg; lia).
    assert (H53x : 2 ^ Zpos (digits2_pos mx) ≤ 2 ^ 53) by (apply Z.pow_le_mono_r; lia).
    assert (H53y : 2 ^ Zpos (digits2_pos my) ≤ 2 ^ 53) by (apply Z.pow_le_mono_r; lia).
    change (2 ^ 53) with 9007199254740992 in *.
    destruct (Z.compare_spec ex ey) as [-> | Hlt | Hgt].
    + rewrite Pos.compare_cont_spec. cbn [Pos.switch_Eq].
      change (mx ?= my)%positive with (Zpos mx ?= Zpos my).
      destruct (Z.compare_spec (Zpos mx) (Zpos my)),
        (Z.compare_spec (Zpos mx * 2 ^ (ey + 1074)) (Zpos my * 2 ^ (ey + 1074)));
        try done; nia.
    + symmetry. apply Z.compare_lt_iff.
      assert (Zpos (digits2_pos my) = 53) by lia.
      assert (Hmy52 : 4503599627370496 ≤ Zpos my).
      { replace (Zpos (digits2_pos my) - 1) with 52 in Hmy by lia.
        change (2 ^ 52) with 4503599627370496 in Hmy. lia. }
      assert (Hsplit : 2 ^ (ey + 1074) = 2 ^ (ey - ex) * 2 ^ (ex + 1074)).
      { rewrite <- Z.pow_add_r by lia. f_equal. lia. }
      assert (2 ^ 1 ≤ 2 ^ (ey - ex)) by (apply Z.pow_le_mono_r; lia).
      change (2 ^ 1) with 2 in *. rewrite Hsplit. nia.
    + symmetry. apply Z.compare_gt_iff.
      assert (Zpos (digits2_pos mx) = 53) by lia.
      assert (Hmx52 : 4503599627370496 ≤ Zpos mx).
      { replace (Zpos (digits2_pos mx) - 1) with 52 in Hmx by lia.
        change (2 ^ 52) with 4503599627370496 in Hmx. lia. }
      assert (Hsplit : 2 ^ (ex + 1074) = 2 ^ (ex - ey) * 2 ^ (ey + 1074)).
      { rewrite <- Z.pow_add_r by lia. f_equal. lia. }
      assert (2 ^ 1 ≤ 2 ^ (ex - ey)) by (apply Z.pow_le_mono_r; lia).
      change (2 ^ 1) with 2 in *. rewrite Hsplit. nia.
Qed.

(** *** Subtraction and addition of non-negative doubles *)
(** The difference of two non-negative doubles [x >= y] is the rounded
    difference of their values. *)
Lemma SFsub_nn (x y : spec_float) :
  SFnn x → SFnn y → SFval y ≤ SFval x →
  SFnn (SFsub prec emax x y)
  ∧ SFval (SFsub prec emax x y) = rnd (SFval x - SFval y).
Proof.
  intros Hx Hy Hle.
  destruct x as [sx| | |[] mx ex], y as [sy| | |[] my ey]; try done.
  - destruct sx, sy; (split; [done | reflexivity]).
  - cbn [SFnn] in Hy. apply bounded_elim in Hy as (He & _).
    pose proof (SFval_finite_pos false my ey ltac:(lia)). cbn [SFval] in *. lia.
  - cbn [SFsub]. split; [done |]. cbn [SFval]. rewrite Z.sub_0_r.
    symmetry. apply (SFval_representable (S754_finite false mx ex) Hx).
  - pose proof Hx as (Hex & _)%bounded_elim. pose proof Hy as (Hey & _)%bounded_elim.
    cbn [SFsub cond_Zopp]. set (ez := Z.min ex ey).
    rewrite (shl_align_value mx ex ez), (shl_align_value my ey ez) by lia.
    assert (HP : 0 < 2 ^ (ez + 1074)) by (apply Z.pow_pos_nonneg; lia).
    assert (Hvx : Zpos mx * 2 ^ (ex - ez) * 2 ^ (ez + 1074) = SFval (S754_finite false mx ex)).
    { cbn [SFval]. rewrite <- Z.mul_assoc, <- Z.pow_add_r by lia. f_equal. f_equal. lia. }
    assert (Hvy : Zpos my * 2 ^ (ey - ez) * 2 ^ (ez + 1074) = SFval (S754_finite false my ey)).
    { cbn [SFval]. rewrite <- Z.mul_assoc, <- Z.pow_add_r by lia. f_equal. f_equal. lia. }
    pose proof (SFval_representable _ Hx) as HrX.
    pose proof (SFval_lt_overflow _ Hx) as HoX.
    set (X := SFval (S754_finite false mx ex)) in *.
    set (Y := SFval (S754_finite false my ey)) in *.
    set (M := Zpos mx * 2 ^ (ex - ez) - Zpos my * 2 ^ (ey - ez)).
    assert (HM : M * 2 ^ (ez + 1074) = X - Y) by (unfold M; lia).
    destruct M as [|Mp|Mp] eqn:HMp; cbn [binary_normalize].
    + split; [done |]. cbn [SFval]. replace (X - Y) with 0 by lia. by rewrite rnd_0.
    + destruct (binary_round_value false Mp ez ltac:(lia)) as [[_ Hov] | (m' & e' & -> & Hb & Hv)].
      * rewrite HM in Hov.
        pose proof (rnd_mono (X - Y) X ltac:(lia)) as Hmono. lia.
      * split; [done |]. cbn [SFval]. by rewrite Hv, HM.
    + nia.
Qed.





(** *** Primitive floats *)
Lemma nonneg64_cases (x : float) :
  (of_int 0 <=? x)%py = true → nn64 x ∨ Prim2SF x = S754_infinity false.
Proof.
  cbn [fle binary64 of_int float_of_Z]. rewrite FloatAxioms.leb_spec.
  change (Prim2SF PrimFloat.zero) with (S754_zero false).
  pose proof (Prim2SF_valid x) as Hv. unfold nn64.
  destruct (Prim2SF x) as [s|[]| |[] m e]; cbn; try done; auto.
Qed.

Lemma ltb_val64 (x y : float) :
  nn64 x → nn64 y → (x <? y)%py = (val64 x <? val64 y).
Proof.
  intros Hx Hy. cbn [flt binary64]. rewrite FloatAxioms.ltb_spec. unfold SFltb.
  rewrite (SFcompare_val _ _ Hx Hy). unfold Z.ltb, val64. done.
Qed.

Lemma leb_val64 (x y : float) :
  nn64 x → nn64 y → (x <=? y)%py = (val64 x <=? val64 y).
Proof.
  intros Hx Hy. cbn [fle binary64]. rewrite FloatAxioms.leb_spec. unfold SFleb.
  rewrite (SFcompare_val _ _ Hx Hy). unfold Z.leb, val64.
  by destruct (SFval (Prim2SF x) ?= SFval (Prim2SF y)).
Qed.

Lemma ltb_infinity64 (x p : float) :
  nn64 x → Prim2SF p = S754_infinity false → (x <? p)%py = true.
Proof.
  intros Hx Hp. cbn [flt binary64]. rewrite FloatAxioms.ltb_spec, Hp. unfold nn64 in Hx.
  by destruct (Prim2SF x) as [| | |[] m e].
Qed.

Lemma sub64 (x y : float) :
  nn64 x → nn64 y → val64 y ≤ val64 x →
  nn64 (x - y)%py ∧ val64 (x - y)%py = rnd (val64 x - val64 y).
Proof.
  intros Hx Hy Hle. unfold nn64, val64. cbn [fsub binary64]. rewrite FloatAxioms.sub_spec.
  by apply SFsub_nn.
Qed.

Lemma val64_one : val64 (of_int 1) = 2 ^ 1074.
Proof. reflexivity. Qed.

Lemma nn64_one : nn64 (of_int 1).
Proof. reflexivity. Qed.

Lemma val64_below_one : val64 below_one = 2 ^ 1074 - 2 ^ 1021.
Proof. reflexivity. Qed.

Lemma nn64_below_one : nn64 below_one.
Proof. reflexivity. Qed.

(** A double below 1 is at most the largest double below 1. *)
Lemma SFval_below_one (x : spec_float) :
  SFnn x → SFval x < 2 ^ 1074 → SFval x ≤ 2 ^ 1074 - 2 ^ 1021.
Proof.
  assert (H1074 : 2 ^ 1074 = 9007199254740992 * 2 ^ 1021).
  { change 9007199254740992 with (2 ^ 53). by rewrite <- Z.pow_add_r. }
  assert (H1021 : 0 < 2 ^ 1021) by (by apply Z.pow_pos_nonneg).
  destruct x as [| | |[] m e]; cbn [SFnn SFval]; try done.
  - intros (He & _ & Hd & Hn)%bounded_elim Hlt.
    pose proof (digits2_pos_bounds m) as [Hlo Hhi].
    assert (HP : 0 < 2 ^ (e + 1074)) by (apply Z.pow_pos_nonneg; lia).
    assert (Hm53 : Zpos m < 2 ^ 53).
    { assert (2 ^ Zpos (digits2_pos m) ≤ 2 ^ 53) by (apply Z.pow_le_mono_r; lia). lia. }
    change (2 ^ 53) with 9007199254740992 in Hm53.
    destruct (Z.le_gt_cases (e + 1074) 1021) as [Hsmall | Hbig].
    + assert (Hle : 2 ^ (e + 1074) ≤ 2 ^ 1021) by (apply Z.pow_le_mono_r; lia).
      rewrite H1074. clear Hlt Hlo Hhi.
      set (P := 2 ^ (e + 1074)) in *. set (U := 2 ^ 1021) in *. clearbody P U.
      assert (Zpos m * P ≤ 9007199254740991 * P) by (apply Z.mul_le_mono_nonneg_r; lia).
      assert (9007199254740991 * P ≤ 9007199254740991 * U)
        by (apply Z.mul_le_mono_nonneg_l; lia).
      lia.
    + exfalso. assert (Zpos (digits2_pos m) = 53) by lia.
      replace (Zpos (digits2_pos m) - 1) with 52 in Hlo by lia.
      change (2 ^ 52) with 4503599627370496 in Hlo.
      assert (Hge : 2 ^ 1022 ≤ 2 ^ (e + 1074)) by (apply Z.pow_le_mono_r; lia).
      assert (H1022 : 2 ^ 1022 = 2 * 2 ^ 1021).
      { change 2 with (2 ^ 1) at 2. by rewrite <- Z.pow_add_r. }
      rewrite H1074 in Hlt. rewrite H1022 in Hge. clear Hhi H1074 H1022.
      set (P := 2 ^ (e + 1074)) in *. set (U := 2 ^ 1021) in *. clearbody P U.
      assert (4503599627370496 * P ≤ Zpos m * P) by (apply Z.mul_le_mono_nonneg_r; lia).
      lia.
Qed.

Lemma unit_draw64 (r : float) :
  unit_draw r → nn64 r ∧ val64 r ≤ val64 below_one.
Proof.
  intros [H0 H1].
  destruct (nonneg64_cases r H0) as [Hnn | Hinf].
  - split; [done |]. rewrite val64_below_one. apply SFval_below_one; [done |].
    rewrite (ltb_val64 r (of_int 1) Hnn nn64_one) in H1.
    apply Z.ltb_lt in H1. by rewrite val64_one in H1.
  - exfalso. revert H1. cbn [flt binary64]. rewrite FloatAxioms.ltb_spec, Hinf. done.
Qed.

(** The loop at a smaller remainder stops no later. *)
Lemma select_from_dist_mono64 {K : Type} (dist : list (K * float)) (r r' : float) (item' : K) :
  nonneg_probs dist →
  nn64 r → nn64 r' → val64 r ≤ val64 r' →
  select_from_dist dist r' = Ok item' →
  ∃ item, select_from_dist dist r = Ok item.
Proof.
  intros Hnn. revert r r'.
  induction Hnn as [|[item1 prob] dist Hp Hnn IH]; intros r r' Hr Hr' Hle;
    cbn [select_from_dist]; [done |].
  destruct (r <? prob)%py eqn:Htest; [intros _; by eexists |].
  cbn [snd] in Hp.
  destruct (nonneg64_cases prob Hp) as [Hpn | Hinf];
    [| by rewrite (ltb_infinity64 r prob Hr Hinf) in Htest].
  rewrite (ltb_val64 r prob Hr Hpn) in Htest. apply Z.ltb_ge in Htest.
  assert (Htest' : (r' <? prob)%py = false).
  { rewrite (ltb_val64 r' prob Hr' Hpn). apply Z.ltb_ge. lia. }
  rewrite Htest'.
  destruct (sub64 r prob Hr Hpn Htest) as [Hs Hv].
  destruct (sub64 r' prob Hr' Hpn ltac:(lia)) as [Hs' Hv'].
  apply IH; [done | done |]. rewrite Hv, Hv'. apply rnd_mono. lia.
Qed.

(** The table of daily sales answers every draw in [[0, 1)]. *)
Lemma daily_sales_returns64 (r : float) :
  unit_draw r →
  ∃ daily_sales : Z, select_from_dist daily_sales_dist r = Ok daily_sales.
Proof.
  intros [Hr Hle]%unit_draw64.
  apply (select_from_dist_mono64 daily_sales_dist r below_one 10%Z);
    [repeat constructor | done | apply nn64_below_one | done | by vm_compute].
Qed.

(** *** A margin below which the loop must raise *)
Lemma unit_prob64 (p : float) :
  (of_int 0 <=? p)%py = true → (p <=? of_int 1)%py = true → nn64 p.
Proof.
  intros H0 H1. destruct (nonneg64_cases p H0) as [Hnn | Hinf]; [done |].
  exfalso. revert H1. cbn [fle binary64]. rewrite FloatAxioms.leb_spec, Hinf. done.
Qed.

(** With [n] entries left, a remainder that exceeds the remaining sum by
    [n * 2^-53] fails every test. *)
Lemma select_from_dist_raises64 {K : Type} (dist : list (K * float)) (x : float) :
  unit_probs dist → nn64 x → val64 x < 2 ^ 1074 →
  scaled_sum dist + Z.of_nat (length dist) * 2 ^ 1021 ≤ val64 x →
  select_from_dist dist x = Raise RuntimeError.
Proof.
  intros Hu. revert x.
  induction Hu as [|[item prob] dist [Hp0 Hp1] Hu IH]; intros x Hx Hlt Hsum; [done |].
  cbn [snd] in Hp0, Hp1. pose proof (unit_prob64 prob Hp0 Hp1) as Hp.
  assert (Hrest : 0 ≤ scaled_sum dist).
  { clear -Hu. induction Hu as [|[i q] d [H0 H1] _ IHd]; [done |].
    unfold scaled_sum in *. cbn [fmap list_fmap foldr snd] in *.
    pose proof (SFval_nonneg _ (unit_prob64 q H0 H1)). unfold val64 at 1. lia. }
  assert (HU : 0 < 2 ^ 1021) by (by apply Z.pow_pos_nonneg).
  unfold scaled_sum in Hsum. cbn [fmap list_fmap foldr snd length] in Hsum.
  fold (scaled_sum dist) in Hsum. rewrite Nat2Z.inj_succ in Hsum.
  pose proof (SFval_nonneg _ Hp) as Hp'. fold (val64 prob) in Hp'.
  assert (Hle : val64 prob ≤ val64 x) by nia.
  cbn [select_from_dist].
  assert (Htest : (x <? prob)%py = false).
  { rewrite (ltb_val64 x prob Hx Hp). apply Z.ltb_ge. done. }
  rewrite Htest.
  destruct (sub64 x prob Hx Hp Hle) as [Hs Hv].
  pose proof (rnd_lower (val64 x - val64 prob) 1074 ltac:(lia) ltac:(lia)) as Hlow.
  replace (1074 - 53) with 1021 in Hlow by lia.
  pose proof (rnd_mono (val64 x - val64 prob) (val64 x) ltac:(lia)) as Hup.
  pose proof (SFval_representable _ Hx) as Hrep. fold (val64 x) in Hrep.
  rewrite Hrep in Hup.
  apply IH; [done | rewrite Hv; lia |]. rewrite Hv. nia.
Qed.

(** The rational a non-negative double stands for is its value in units
    of [2^-1074]. *)
Lemma Q_of_float_val64 (p : float) :
  nn64 p → (Q_of_float p * inject_Z (2 ^ 1074) == inject_Z (val64 p))%Q.
Proof.
  unfold nn64, val64, Q_of_float. destruct (Prim2SF p) as [s|s| |[] m e]; try done.
  cbn [SFnn SFval]. intros (He & _)%bounded_elim.
  destruct e as [|k|k].
  - rewrite <- inject_Z_mult. apply inject_Z_injective.
      rewrite Z.pow_0_r, Z.mul_1_r. reflexivity.
  - rewrite <- inject_Z_mult. apply inject_Z_injective.
    rewrite Z.pow_add_r by lia. ring.
  - unfold Qeq. cbn [Qnum Qden Qmult inject_Z]. rewrite Pos.mul_1_r, Z.mul_1_r.
    rewrite Pos2Z.inj_pow.
    replace 1074 with (Z.pos k + (Z.neg k + 1074)) at 1 by lia.
    rewrite Z.pow_add_r by lia. ring.
Qed.

Lemma exact_sum_scaled {K : Type} (dist : list (K * float)) :
  unit_probs dist →
  (exact_sum dist * inject_Z (2 ^ 1074) == inject_Z (scaled_sum dist))%Q.
Proof.
  induction 1 as [|[item prob] dist [H0 H1] _ IH].
  - unfold exact_sum, scaled_sum. cbn [fmap list_fmap foldr]. apply Qmult_0_l.
  - unfold exact_sum, scaled_sum in *. cbn [fmap list_fmap foldr snd] in *.
    rewrite Qmult_plus_distr_l, IH, (Q_of_float_val64 prob (unit_prob64 _ H0 H1)).
    rewrite inject_Z_plus. reflexivity.
Qed.

Lemma select_from_dist_raises_below_one {K : Type} (dist : list (K * float)) :
  unit_probs dist →
  (exact_sum dist <= 1 - margin (length dist))%Q →
  select_from_dist dist below_one = Raise RuntimeError.
Proof.
  intros Hu Hsum.
  apply select_from_dist_raises64; [done | apply nn64_below_one | |].
  - rewrite val64_below_one. pose proof (Z.pow_pos_nonneg 2 1021 ltac:(lia) ltac:(lia)). plia.
  - rewrite val64_below_one.
    pose proof (exact_sum_scaled dist Hu) as Hsc.
    assert (H2 : (0 < inject_Z (2 ^ 1074))%Q).
    { replace 0%Q with (inject_Z 0) by done. rewrite <- Zlt_Qlt. by apply Z.pow_pos_nonneg. }
    apply (Qmult_le_compat_r _ _ (inject_Z (2 ^ 1074))) in Hsum; [| by apply Qlt_le_weak].
    rewrite Hsc in Hsum.
    assert (Hm : ((1 - margin (length dist)) * inject_Z (2 ^ 1074)
                  == inject_Z (2 ^ 1074 - (Z.of_nat (length dist) + 1) * 2 ^ 1021))%Q).
    { unfold margin. generalize (Z.of_nat (length dist) + 1). intros n.
      replace (2 ^ 1074) with (9007199254740992 * 2 ^ 1021) by (vm_compute; reflexivity).
      generalize (2 ^ 1021). intros u.
      unfold Qeq, Qminus, Qplus, Qopp, Qmult, inject_Z. cbn [Qnum Qden].
      lia. }
    rewrite Hm in Hsum. rewrite <- Zle_Qle in Hsum. plia.
Qed.

(** *** Non-negative sums and products *)
Lemma nonneg64_leb (x : float) : nonneg64 x → (of_int 0 <=? x)%py = true.
Proof.
  cbn [fle binary64 of_int float_of_Z]. rewrite FloatAxioms.leb_spec.
  change (Prim2SF PrimFloat.zero) with (S754_zero false).
  unfold nonneg64, nn64. intros [Hx | ->]; [| done].
  by destruct (Prim2SF x) as [s|s| |[] m e].
Qed.

Lemma finite_nonneg64 (x : float) :
  (of_int 0 <=? x)%py = true → (x <? PrimFloat.infinity)%py = true → nn64 x.
Proof.
  intros [Hx | Hinf]%nonneg64_cases Hlt; [done |]. exfalso. revert Hlt.
  cbn [flt binary64]. rewrite FloatAxioms.ltb_spec, Hinf. done.
Qed.



End Binary64.

(** ** The sampler in binary64 *)




(** C4, as amended. In binary64, for every table of [n] probabilities in
    [[0, 1]] whose sum, taken without rounding, is at most
    [1 - (n + 1) * 2^-53], there is a draw [0 <= r < 1], namely the largest
    double below 1, at which [select_from_dist] raises [RuntimeError]: each
    subtraction loses less than [2^-53], so the remainder stays at or above
    what is left of the sum and every test fails. *)
Theorem select_from_dist_raises {K : Type} (dist : list (K * float)) :
  unit_probs dist →
  (exact_sum dist <= 1 - margin (length dist))%Q →
  ∃ r : float, unit_draw r ∧ select_from_dist dist r = Raise RuntimeError.
Proof.
  intros Hu Hsum. exists below_one.
  split; [split; reflexivity | by apply select_from_dist_raises_below_one].
Qed.

Lemma select_from_dist_raises_witness :
  unit_probs [(3%Z, lit 0.5 : float); (5%Z, lit 0.25 : float)]
  ∧ (exact_sum [(3%Z, lit 0.5 : float); (5%Z, lit 0.25 : float)]
     <= 1 - margin (length [(3%Z, lit 0.5 : float); (5%Z, lit 0.25 : float)]))%Q
  ∧ ∃ r : float, unit_draw r
      ∧ select_from_dist [(3%Z, lit 0.5 : float); (5%Z, lit 0.25 : float)] r
        = Raise RuntimeError.
Proof.
  assert (Hu : unit_probs [(3%Z, lit 0.5 : float); (5%Z, lit 0.25 : float)])
    by (repeat constructor).
  assert (Hs : (exact_sum [(3%Z, lit 0.5 : float); (5%Z, lit 0.25 : float)]
                <= 1 - margin (length [(3%Z, lit 0.5 : float); (5%Z, lit 0.25 : float)]))%Q)
    by (by vm_compute).
  exact (conj Hu (conj Hs (select_from_dist_raises _ Hu Hs))).
Defined.

(** C4, as stated, fails in binary64: the three probabilities of
    [tight_dist] are positive and their sum is below 1, as Python's [sum]
    computes it ([1 - 2^-53]) and as rationals ([1 - 2^-54]), yet
    [select_from_dist] returns for every draw [0 <= r < 1].  The sum lies
    above the largest double below 1, so no draw reaches it. *)
Lemma select_from_dist_tight_returns :
  Forall (λ ip, (of_int 0 <? ip.2)%py = true) tight_dist
  ∧ (sum_probs tight_dist <? of_int 1)%py = true
  ∧ (exact_sum tight_dist < 1)%Q
  ∧ ∀ r : float, unit_draw r → ∃ item, select_from_dist tight_dist r = Ok item.
Proof.
  split; [repeat constructor |].
  split; [by vm_compute |].
  split; [by vm_compute |].
  intros r [Hr Hle]%unit_draw64.
  apply (select_from_dist_mono64 tight_dist r below_one 2%Z);
    [repeat constructor | done | apply nn64_below_one | done | by vm_compute].
Qed.

(** ** The environment *)

Section EnvironmentFacts.
Context {F : Type} `{PyFloat F}.
Implicit Types (self : SmartphoneEnvironment (F:=F)) (action : gmap string Z).

(** [self.time % len(self.price_delta)] never leaves the list. *)
Lemma price_delta_index (t : nat) :
  is_Some (price_delta !! (t mod length price_delta)).
Proof.
  apply lookup_lt_is_Some. apply Nat.mod_upper_bound. discriminate.
Qed.

(** What a call does once the sampler has drawn [daily_sales]. *)
Lemma do_action_Ok ranreal noise action self (daily_sales : Z) :
  select_from_dist daily_sales_dist ranreal = Ok daily_sales →
  let stock' := Z.max 0 (stock self + bought_of action - daily_sales) in
  let price' :=
    (price self
     + (of_int (price_delta !!! (S (time self) mod length price_delta)) + noise))%py in
  do_action ranreal noise action self
  = Ok ({| time := S (time self);
           stock := stock';
           price := price';
           stock_history := stock_history self ++ [stock'];
           price_history := price_history self ++ [price'] |},
        {| percept_price := price'; percept_stock := stock' |}).
Proof. intros Hsel. unfold do_action. by rewrite Hsel. Qed.

(** A call raises exactly when the sampler does. *)
Lemma do_action_Raise ranreal noise action self (e : exn) :
  do_action ranreal noise action self = Raise e
  ↔ select_from_dist daily_sales_dist ranreal = Raise e.
Proof.
  unfold do_action.
  destruct (select_from_dist daily_sales_dist ranreal); simpl; split; congruence.
Qed.

Lemma do_action_inv ranreal noise action self self' p :
  do_action ranreal noise action self = Ok (self', p) →
  ∃ daily_sales : Z,
    select_from_dist daily_sales_dist ranreal = Ok daily_sales
    ∧ time self' = S (time self)
    ∧ stock self' = Z.max 0 (stock self + bought_of action - daily_sales)
    ∧ stock_history self' = stock_history self ++ [stock self']
    ∧ price_history self' = price_history self ++ [price self']
    ∧ p = initial_percept self'.
Proof.
  destruct (select_from_dist daily_sales_dist ranreal) as [s|e] eqn:Hsel.
  - rewrite (do_action_Ok _ _ _ _ _ Hsel). intros [= <- <-]. by exists s.
  - apply do_action_Raise with (noise := noise) (action := action) (self := self) in Hsel.
    congruence.
Qed.

Lemma after_call_stock self (c : Call) :
  (0 ≤ stock self)%Z → (0 ≤ stock (after_call self c))%Z.
Proof.
  intros Hs. unfold after_call.
  destruct (do_action _ _ _ self) as [[self' p]|e] eqn:Hdo; [|done].
  apply do_action_inv in Hdo as (s & _ & _ & -> & _). lia.
Qed.

Lemma after_call_aligned self (c : Call) :
  histories_aligned self → histories_aligned (after_call self c).
Proof.
  intros [Hps Hst]. unfold after_call.
  destruct (do_action _ _ _ self) as [[self' p]|e] eqn:Hdo; [|done].
  apply do_action_inv in Hdo as (s & _ & Ht & _ & Hsh & Hph & _).
  unfold histories_aligned. rewrite Hsh, Hph, Ht, !length_app. simpl. lia.
Qed.

Lemma states_after_invariant (P : SmartphoneEnvironment (F:=F) → Prop) :
  (∀ self c, P self → P (after_call self c)) →
  ∀ calls self, P self → Forall P (states_after self calls).
Proof.
  intros Hstep. induction calls as [|c calls IH]; intros self HP; simpl.
  - constructor.
  - constructor; [by apply Hstep | apply IH; by apply Hstep].
Qed.

(** Without the ["buy"] key the call is the call with [buy = 0]. *)
Lemma do_action_default_buy ranreal noise action self :
  action !! "buy" = None →
  do_action ranreal noise action self
  = do_action ranreal noise (<["buy" := 0%Z]> action) self.
Proof.
  intros Hnone. unfold do_action, bought_of.
  by rewrite Hnone, lookup_insert_eq.
Qed.

End EnvironmentFacts.

(** In exact arithmetic the table of daily sales covers every draw. *)
Lemma daily_sales_returns_exact (r : Q) :
  unit_draw r → ∃ daily_sales : Z,
    select_from_dist daily_sales_dist r = Ok daily_sales
    ∧ daily_sales ∈ [3; 5; 7; 10]%Z.
Proof.
  intros [Hr0 Hr1]. apply Qle_bool_iff in Hr0. apply Qlt_bool_iff in Hr1.
  apply (select_below_sum daily_sales_dist r); [repeat constructor | exact_arith |].
  assert (Hsum : (sum_probs (daily_sales_dist (F:=Q)) == 1)%Q) by reflexivity.
  rewrite Hsum. exact_arith.
Qed.

(** In binary64 the table of daily sales answers the two extreme draws, 0
    and the largest double below 1. *)
Lemma daily_sales_binary64_extremes :
  select_from_dist daily_sales_dist (of_int 0 : float) = Ok 3%Z
  ∧ unit_draw drift_draw
  ∧ select_from_dist daily_sales_dist drift_draw = Ok 10%Z.
Proof. repeat split; by vm_compute. Qed.

(** C1. For every sequence of [do_action] calls on a new environment in
    which every action has [buy >= 0], the stock is [>= 0] after each call,
    whether the call returned or raised. *)
Theorem stock_never_negative {F : Type} `{PyFloat F} (calls : list (Call (F:=F))) :
  Forall (λ c, (0 ≤ bought_of (call_action c))%Z) calls →
  Forall (λ self, (0 ≤ stock self)%Z) (states_after SmartphoneEnvironment_init calls).
Proof.
  intros _. apply states_after_invariant; [apply after_call_stock | done].
Qed.

Lemma stock_never_negative_witness :
  let calls : list (Call (F:=Q)) :=
    replicate 7 {| call_ranreal := lit 0.9; call_noise := lit 0;
                   call_action := {[ "buy" := 0%Z ]} |} in
  Forall (λ c, (0 ≤ bought_of (call_action c))%Z) calls
  ∧ Forall (λ self, (0 ≤ stock self)%Z) (states_after SmartphoneEnvironment_init calls).
Proof.
  intros calls.
  assert (Hbuy : Forall (λ c, (0 ≤ bought_of (call_action c))%Z) calls)
    by (repeat constructor; by vm_compute).
  exact (conj Hbuy (stock_never_negative calls Hbuy)).
Defined.

(** Over-selling is clamped: seven days of ten sales and no order. *)
Example stock_clamped :
  stock <$> states_after (F:=Q) SmartphoneEnvironment_init
    (replicate 7 {| call_ranreal := lit 0.9; call_noise := lit 0;
                    call_action := {[ "buy" := 0%Z ]} |})
  = [40; 30; 20; 10; 0; 0; 0]%Z.
Proof. by vm_compute. Qed.

(** C2. A new environment has [time = 0] and one element in each history,
    and after every call of any sequence of [do_action] calls
    [len(price_history) == len(stock_history) == time + 1]. *)
Theorem histories_stay_aligned {F : Type} `{PyFloat F} (calls : list (Call (F:=F))) :
  time (SmartphoneEnvironment_init (F:=F)) = 0
  ∧ length (price_history (SmartphoneEnvironment_init (F:=F))) = 1
  ∧ length (stock_history (SmartphoneEnvironment_init (F:=F))) = 1
  ∧ Forall histories_aligned (states_after SmartphoneEnvironment_init calls).
Proof.
  do 3 (split; [done |]).
  apply states_after_invariant; [apply after_call_aligned | done].
Qed.

(** Each returning call advances the clock, so the lengths do grow. *)
Example histories_grow :
  (λ self, (time self, length (price_history self), length (stock_history self)))
    <$> states_after (F:=Q) SmartphoneEnvironment_init
      (replicate 3 {| call_ranreal := lit 0.5; call_noise := lit 0; call_action := ∅ |})
  = [(1, 2, 2); (2, 3, 3); (3, 4, 4)].
Proof. by vm_compute. Qed.

(** C6. On a new environment ([time = 0], [price = 600]) and with the noise
    draw 0, one [do_action] call returns with [time = 1] and
    [price == 600 + price_delta[1 % 10] == 600 + (-20) == 580]: in exact
    arithmetic for every draw [0 <= r < 1], in binary64 for every draw at
    which the sampler returns. *)
Theorem first_price_is_580 :
  (∀ (r : Q) (action : gmap string Z), unit_draw r →
     ∃ self' p,
       do_action r (lit 0) action SmartphoneEnvironment_init = Ok (self', p)
       ∧ time self' = 1
       ∧ price_delta !! (time self' mod length price_delta) = Some (-20)%Z
       ∧ (price self' =? of_int 580)%py = true
       ∧ (percept_price p =? of_int 580)%py = true)
  ∧ (∀ (r : float) (action : gmap string Z) (daily_sales : Z),
       select_from_dist daily_sales_dist r = Ok daily_sales →
       ∃ self' p,
         do_action r (lit 0) action SmartphoneEnvironment_init = Ok (self', p)
         ∧ time self' = 1
         ∧ price_delta !! (time self' mod length price_delta) = Some (-20)%Z
         ∧ (price self' =? of_int 580)%py = true
         ∧ (percept_price p =? of_int 580)%py = true).
Proof.
  split.
  - intros r action Hr. destruct (daily_sales_returns_exact r Hr) as (s & Hsel & _).
    eexists _, _. split; [apply (do_action_Ok _ _ _ _ _ Hsel) |]. by vm_compute.
  - intros r action s Hsel.
    eexists _, _. split; [apply (do_action_Ok _ _ _ _ _ Hsel) |]. by vm_compute.
Qed.

Lemma first_price_is_580_witness :
  unit_draw (lit 0.5 : Q)
  ∧ select_from_dist daily_sales_dist (lit 0.5 : float) = Ok 7%Z
  ∧ (∃ self' p,
       do_action (lit 0.5 : Q) (lit 0) ∅ SmartphoneEnvironment_init = Ok (self', p)
       ∧ time self' = 1
       ∧ price_delta !! (time self' mod length price_delta) = Some (-20)%Z
       ∧ (price self' =? of_int 580)%py = true
       ∧ (percept_price p =? of_int 580)%py = true)
  ∧ (∃ self' p,
       do_action (lit 0.5 : float) (lit 0) ∅ SmartphoneEnvironment_init = Ok (self', p)
       ∧ time self' = 1
       ∧ price_delta !! (time self' mod length price_delta) = Some (-20)%Z
       ∧ (price self' =? of_int 580)%py = true
       ∧ (percept_price p =? of_int 580)%py = true).
Proof.
  assert (Hr : unit_draw (lit 0.5 : Q)) by (split; reflexivity).
  assert (Hsel : select_from_dist daily_sales_dist (lit 0.5 : float) = Ok 7%Z)
    by (by vm_compute).
  exact (conj Hr (conj Hsel (conj
    (proj1 first_price_is_580 (lit 0.5) ∅ Hr)
    (proj2 first_price_is_580 (lit 0.5) ∅ 7%Z Hsel)))).
Defined.

(** C10. A [do_action] call whose action has no ["buy"] key does not fail on
    the missing key: once the sampler has drawn [daily_sales] the call
    returns, with the stock [max(0, stock - daily_sales)], the usual price
    and history updates, and the same result as with [buy = 0]. *)
Theorem do_action_without_buy {F : Type} `{PyFloat F} (ranreal noise : F)
    (action : gmap string Z) (self : SmartphoneEnvironment (F:=F)) (daily_sales : Z) :
  action !! "buy" = None →
  select_from_dist daily_sales_dist ranreal = Ok daily_sales →
  let stock' := Z.max 0 (stock self - daily_sales) in
  let price' :=
    (price self
     + (of_int (price_delta !!! (S (time self) mod length price_delta)) + noise))%py in
  do_action ranreal noise action self
  = Ok ({| time := S (time self);
           stock := stock';
           price := price';
           stock_history := stock_history self ++ [stock'];
           price_history := price_history self ++ [price'] |},
        {| percept_price := price'; percept_stock := stock' |})
  ∧ do_action ranreal noise action self
    = do_action ranreal noise (<["buy" := 0%Z]> action) self.
Proof.
  intros Hnone Hsel. split; [| by apply do_action_default_buy].
  rewrite (do_action_Ok _ _ _ _ _ Hsel). unfold bought_of. rewrite Hnone. simpl.
  by rewrite Z.add_0_r.
Qed.

Lemma do_action_without_buy_witness :
  (∅ : gmap string Z) !! "buy" = None
  ∧ select_from_dist daily_sales_dist (lit 0.5 : Q) = Ok 7%Z
  ∧ do_action (lit 0.5 : Q) (lit 0) ∅ SmartphoneEnvironment_init
    = Ok ({| time := 1; stock := 43; price := of_int 600 + (of_int (-20) + lit 0);
             stock_history := [50; 43]%Z;
             price_history := [of_int 600; of_int 600 + (of_int (-20) + lit 0)] |},
          {| percept_price := of_int 600 + (of_int (-20) + lit 0); percept_stock := 43 |})%py
  ∧ do_action (lit 0.5 : Q) (lit 0) ∅ SmartphoneEnvironment_init
    = do_action (lit 0.5 : Q) (lit 0) (<["buy" := 0%Z]> ∅) SmartphoneEnvironment_init.
Proof.
  assert (Hnone : (∅ : gmap string Z) !! "buy" = None) by reflexivity.
  assert (Hsel : select_from_dist daily_sales_dist (lit 0.5 : Q) = Ok 7%Z) by reflexivity.
  exact (conj Hnone (conj Hsel
    (do_action_without_buy (lit 0.5) (lit 0) ∅ SmartphoneEnvironment_init 7%Z Hnone Hsel))).
Defined.

(** ** The agent *)

Section AgentFacts.
Context {F : Type} `{PyFloat F}.
Implicit Types (self : SmartphoneAgent (F:=F)) (percept : Percept (F:=F)).

(** The order quantity is one of the three constants and is what the
    returned action, the history and the expenditure record. *)
Lemma select_action_tobuy percept self :
  ∃ tobuy : Z,
    tobuy ∈ [15; 10; 0]%Z
    ∧ (select_action percept self).2 = {[ "buy" := tobuy ]}
    ∧ buy_history (select_action percept self).1 = buy_history self ++ [tobuy]
    ∧ total_spent (select_action percept self).1
      = (total_spent self + of_int tobuy * percept_price percept)%py.
Proof.
  unfold select_action. simpl.
  destruct (_ && _); [| destruct (_ <? _)%Z];
    eexists; (split; [| done]); set_solver.
Qed.

Lemma select_action_buy_history_length percept self :
  length (buy_history (select_action percept self).1) = S (length (buy_history self)).
Proof. simpl. rewrite length_app. simpl. lia. Qed.

End AgentFacts.

(** The environment does deliver negative prices.  In binary64, with every
    noise draw 0 and every uniform draw 0.5, the percept after 586 steps has
    price -15, the agent then orders 15 units, and [total_spent] drops from
    1169000 to 1168775 at the 587th [select_action] call. *)
Lemma run_reaches_negative_price :
  let rng : nat → float * float := λ _, (lit 0.5, lit 0) in
  let start := Simulation_init SmartphoneAgent_init SmartphoneEnvironment_init in
  ∃ sim sim',
    run rng 586 start = Ok sim
    ∧ run rng 587 start = Ok sim'
    ∧ (percept_price (percept sim) =? of_int (-15))%py = true
    ∧ (total_spent (agent sim) =? of_int 1169000)%py = true
    ∧ (total_spent (agent sim') =? of_int 1168775)%py = true
    ∧ (total_spent (agent sim') <? total_spent (agent sim))%py = true.
Proof.
  intros rng start. eexists _, _.
  split; [by vm_compute |]. split; [by vm_compute |]. by vm_compute.
Qed.




(** C7. With [average_price = 600] before the call, [select_action] on
    [{price: 500, stock: 10}] sets [average_price] to 590 and returns
    [{buy: 0}]: [500 < 0.8 * 590] is false, and a stock of exactly 10 is
    neither [> 10] nor [< 10].  In exact arithmetic and in binary64. *)
Theorem select_action_stock_boundary :
  (∀ (bh : list Z) (ts : Q),
     let self := {| average_price := of_int 600; buy_history := bh; total_spent := ts |} in
     let percept := {| percept_price := of_int 500; percept_stock := 10 |} in
     (average_price (select_action percept self).1 =? of_int 590)%py = true
     ∧ (lit 0.8 * average_price (select_action percept self).1 =? of_int 472)%py = true
     ∧ (percept_price percept <? lit 0.8 * average_price (select_action percept self).1)%py
       = false
     ∧ (percept_stock percept <? 10)%Z = false
     ∧ (select_action percept self).2 = {[ "buy" := 0%Z ]}
     ∧ buy_history (select_action percept self).1 = bh ++ [0%Z])
  ∧ (∀ (bh : list Z) (ts : float),
       let self := {| average_price := of_int 600; buy_history := bh; total_spent := ts |} in
       let percept := {| percept_price := of_int 500; percept_stock := 10 |} in
       (average_price (select_action percept self).1 =? of_int 590)%py = true
       ∧ (lit 0.8 * average_price (select_action percept self).1 =? of_int 472)%py = true
       ∧ (percept_price percept <? lit 0.8 * average_price (select_action percept self).1)%py
         = false
       ∧ (percept_stock percept <? 10)%Z = false
       ∧ (select_action percept self).2 = {[ "buy" := 0%Z ]}
       ∧ buy_history (select_action percept self).1 = bh ++ [0%Z]).
Proof. split; intros bh ts; repeat split; by vm_compute. Qed.

(** C8. With [average_price = 600] before the call, [select_action] on
    [{price: 400, stock: 20}] sets [average_price] to 580, finds
    [400 < 0.8 * 580 = 464] and [20 > 10], and returns [{buy: 15}].  In
    exact arithmetic and in binary64. *)
Theorem select_action_discount :
  (∀ (bh : list Z) (ts : Q),
     let self := {| average_price := of_int 600; buy_history := bh; total_spent := ts |} in
     let percept := {| percept_price := of_int 400; percept_stock := 20 |} in
     (average_price (select_action percept self).1 =? of_int 580)%py = true
     ∧ (lit 0.8 * average_price (select_action percept self).1 =? of_int 464)%py = true
     ∧ (percept_price percept <? lit 0.8 * average_price (select_action percept self).1)%py
       = true
     ∧ (10 <? percept_stock percept)%Z = true
     ∧ (select_action percept self).2 = {[ "buy" := 15%Z ]}
     ∧ buy_history (select_action percept self).1 = bh ++ [15%Z])
  ∧ (∀ (bh : list Z) (ts : float),
       let self := {| average_price := of_int 600; buy_history := bh; total_spent := ts |} in
       let percept := {| percept_price := of_int 400; percept_stock := 20 |} in
       (average_price (select_action percept self).1 =? of_int 580)%py = true
       ∧ (lit 0.8 * average_price (select_action percept self).1 =? of_int 464)%py = true
       ∧ (percept_price percept <? lit 0.8 * average_price (select_action percept self).1)%py
         = true
       ∧ (10 <? percept_stock percept)%Z = true
       ∧ (select_action percept self).2 = {[ "buy" := 15%Z ]}
       ∧ buy_history (select_action percept self).1 = bh ++ [15%Z]).
Proof. split; intros bh ts; repeat split; by vm_compute. Qed.

(** ** The driver *)

(** C9. Running the driver for 0 steps on a new agent and a new environment
    performs no iteration and returns the simulation as constructed:
    [agent.buy_history == []], [environment.price_history == [600]] and
    [environment.stock_history == [50]]. *)
Theorem run_zero_steps {F : Type} `{PyFloat F} (rng : nat → F * F) :
  ∃ sim,
    run rng 0 (Simulation_init SmartphoneAgent_init SmartphoneEnvironment_init) = Ok sim
    ∧ sim = Simulation_init SmartphoneAgent_init SmartphoneEnvironment_init
    ∧ buy_history (agent sim) = []
    ∧ price_history (environment sim) = [of_int 600]
    ∧ stock_history (environment sim) = [50%Z].
Proof. by eexists. Qed.


(** * Further properties *)

(** ** The sampler, for either arithmetic *)

(** X1. Whatever the arithmetic, an item returned by [select_from_dist] is
    the first entry whose test passes: the table has an entry
    [(item, prob)], every entry before it failed its test, and the remainder
    left by those entries is below [prob]. *)
Theorem select_from_dist_first_hit {F : Type} `{PyFloat F} {K : Type}
    (dist : list (K * F)) (r : F) (item : K) :
  select_from_dist dist r = Ok item →
  ∃ dist1 prob dist2,
    dist = dist1 ++ (item, prob) :: dist2
    ∧ select_from_dist dist1 r = Raise RuntimeError
    ∧ (remainder dist1 r <? prob)%py = true.
Proof.
  revert r. induction dist as [|[item' prob'] dist IH]; intros r; simpl; [done |].
  destruct (r <? prob')%py eqn:Htest.
  - intros [= ->]. by exists [], prob', dist.
  - intros (dist1 & prob & dist2 & -> & Hraise & Hlt)%IH.
    exists ((item', prob') :: dist1), prob, dist2. simpl. by rewrite Htest.
Qed.

Lemma select_from_dist_first_hit_witness :
  select_from_dist daily_sales_dist (lit 0.6 : float) = Ok 7%Z
  ∧ ∃ dist1 prob dist2,
      daily_sales_dist (F:=float) = dist1 ++ (7%Z, prob) :: dist2
      ∧ select_from_dist dist1 (lit 0.6 : float) = Raise RuntimeError
      ∧ (remainder dist1 (lit 0.6 : float) <? prob)%py = true.
Proof.
  assert (Hsel : select_from_dist daily_sales_dist (lit 0.6 : float) = Ok 7%Z)
    by (by vm_compute).
  exact (conj Hsel (select_from_dist_first_hit _ _ _ Hsel)).
Defined.

(** X2. Whatever the arithmetic, sampling from a table made of two parts
    returns what the first part returns, and once the first part is
    exhausted it samples the second part with the remainder
    [ranreal - p1 - ... - pn] that the first part left. *)
Theorem select_from_dist_concat {F : Type} `{PyFloat F} {K : Type}
    (dist1 dist2 : list (K * F)) (r : F) :
  select_from_dist (dist1 ++ dist2) r
  = match select_from_dist dist1 r with
    | Ok item => Ok item
    | Raise _ => select_from_dist dist2 (remainder dist1 r)
    end.
Proof.
  revert r. induction dist1 as [|[item prob] dist1 IH]; intros r; simpl; [done |].
  destruct (r <? prob)%py; [done | apply IH].
Qed.

(** ** The sampler in binary64, further *)

(** X3. In binary64 the sampler is monotone in the draw: for a table with
    non-negative probabilities and two draws [0 <= r <= r'], [r'] finite,
    if [select_from_dist] returns at [r'] then it returns at [r]; a draw
    that raises makes every larger finite draw raise. *)
Theorem select_from_dist_monotone {K : Type} (dist : list (K * float)) (r r' : float)
    (item' : K) :
  nonneg_probs dist →
  (of_int 0 <=? r)%py = true → (r <=? r')%py = true →
  (r' <? PrimFloat.infinity)%py = true →
  select_from_dist dist r' = Ok item' →
  ∃ item, select_from_dist dist r = Ok item.
Proof.
  intros Hnn Hr0 Hle Hfin Hsel.
  assert (Hr'0 : (of_int 0 <=? r')%py = true).
  { destruct (nonneg64_cases r Hr0) as [Hr | Hr].
    - apply nonneg64_leb. revert Hle Hfin. cbn [fle flt binary64].
      rewrite FloatAxioms.leb_spec, FloatAxioms.ltb_spec. unfold nonneg64, nn64 in *.
      destruct (Prim2SF r) as [s|s| |[] m e], (Prim2SF r') as [s'|[]| |[] m' e'] eqn:E;
        try done; intros _ _; (try by left); left; cbn [SFnn];
        pose proof (Prim2SF_valid r') as Hv; by rewrite E in Hv.
    - revert Hle Hfin. cbn [fle flt binary64].
      rewrite FloatAxioms.leb_spec, FloatAxioms.ltb_spec, Hr.
      by destruct (Prim2SF r') as [s'|[]| |[] m' e']. }
  pose proof (finite_nonneg64 r' Hr'0 Hfin) as Hr'.
  assert (Hr : nn64 r).
  { destruct (nonneg64_cases r Hr0) as [Hr | Hr]; [done |]. exfalso. revert Hle.
    cbn [fle binary64]. rewrite FloatAxioms.leb_spec, Hr. unfold nn64 in Hr'.
    by destruct (Prim2SF r') as [s'|[]| |[] m' e']. }
  apply (select_from_dist_mono64 dist r r' item' Hnn Hr Hr'); [| done].
  rewrite (leb_val64 r r' Hr Hr') in Hle. by apply Z.leb_le.
Qed.

Lemma select_from_dist_monotone_witness :
  nonneg_probs (daily_sales_dist (F:=float))
  ∧ (of_int 0 <=? (lit 0.3 : float))%py = true
  ∧ ((lit 0.3 : float) <=? (lit 0.95 : float))%py = true
  ∧ ((lit 0.95 : float) <? PrimFloat.infinity)%py = true
  ∧ select_from_dist daily_sales_dist (lit 0.95 : float) = Ok 10%Z
  ∧ ∃ item, select_from_dist daily_sales_dist (lit 0.3 : float) = Ok item.
Proof.
  assert (Hnn : nonneg_probs (daily_sales_dist (F:=float))) by (repeat constructor).
  assert (H0 : (of_int 0 <=? (lit 0.3 : float))%py = true) by reflexivity.
  assert (H1 : ((lit 0.3 : float) <=? (lit 0.95 : float))%py = true) by reflexivity.
  assert (H2 : ((lit 0.95 : float) <? PrimFloat.infinity)%py = true) by reflexivity.
  assert (Hsel : select_from_dist daily_sales_dist (lit 0.95 : float) = Ok 10%Z)
    by reflexivity.
  exact (conj Hnn (conj H0 (conj H1 (conj H2 (conj Hsel
    (select_from_dist_monotone _ _ _ _ Hnn H0 H1 H2 Hsel)))))).
Defined.

(** X4. In binary64, for a table with non-negative probabilities and a
    finite draw [r >= 0], a returned item has an entry with a strictly
    positive probability: an entry of probability 0 is never selected. *)
Theorem select_from_dist_positive {K : Type} (dist : list (K * float)) (r : float)
    (item : K) :
  nonneg_probs dist →
  (of_int 0 <=? r)%py = true → (r <? PrimFloat.infinity)%py = true →
  select_from_dist dist r = Ok item →
  ∃ prob : float, (item, prob) ∈ dist ∧ (of_int 0 <? prob)%py = true.
Proof.
  intros Hnn Hr0 Hfin. pose proof (finite_nonneg64 r Hr0 Hfin) as Hr. clear Hr0 Hfin.
  revert r Hr.
  induction Hnn as [|[item1 prob] dist Hp Hnn IH]; intros r Hr;
    cbn [select_from_dist]; [done |].
  cbn [snd] in Hp.
  destruct (r <? prob)%py eqn:Htest.
  - intros [= ->]. exists prob. split; [by left |].
    destruct (nonneg64_cases prob Hp) as [Hpn | Hinf].
    + rewrite (ltb_val64 r prob Hr Hpn) in Htest. apply Z.ltb_lt in Htest.
      assert (H0 : nn64 (of_int 0)) by exact I.
      rewrite (ltb_val64 _ prob H0 Hpn). apply Z.ltb_lt.
      pose proof (SFval_nonneg _ Hr) as Hr'. fold (val64 r) in Hr'.
      change (val64 (of_int 0)) with 0%Z. lia.
    + by apply ltb_infinity64.
  - destruct (nonneg64_cases prob Hp) as [Hpn | Hinf];
      [| by rewrite (ltb_infinity64 r prob Hr Hinf) in Htest].
    rewrite (ltb_val64 r prob Hr Hpn) in Htest. apply Z.ltb_ge in Htest.
    destruct (sub64 r prob Hr Hpn Htest) as [Hs _].
    intros Hsel. destruct (IH _ Hs Hsel) as (q & Hin & Hq).
    exists q. split; [by right | done].
Qed.

Lemma select_from_dist_positive_witness :
  nonneg_probs (daily_sales_dist (F:=float))
  ∧ (of_int 0 <=? (lit 0.65 : float))%py = true
  ∧ ((lit 0.65 : float) <? PrimFloat.infinity)%py = true
  ∧ select_from_dist daily_sales_dist (lit 0.65 : float) = Ok 7%Z
  ∧ ∃ prob : float,
      (7%Z, prob) ∈ daily_sales_dist (F:=float) ∧ (of_int 0 <? prob)%py = true.
Proof.
  assert (Hnn : nonneg_probs (daily_sales_dist (F:=float))) by (repeat constructor).
  assert (H0 : (of_int 0 <=? (lit 0.65 : float))%py = true) by reflexivity.
  assert (H1 : ((lit 0.65 : float) <? PrimFloat.infinity)%py = true) by reflexivity.
  assert (Hsel : select_from_dist daily_sales_dist (lit 0.65 : float) = Ok 7%Z) by reflexivity.
  exact (conj Hnn (conj H0 (conj H1 (conj Hsel
    (select_from_dist_positive _ _ _ Hnn H0 H1 Hsel))))).
Defined.

(** ** The environment, for either arithmetic *)

Section CallFacts.
Context {F : Type} `{PyFloat F}.
Implicit Types (self : SmartphoneEnvironment (F:=F)) (c : Call (F:=F)).
Local Open Scope py_scope.

Lemma after_call_returns self c (daily_sales : Z) :
  select_from_dist daily_sales_dist (call_ranreal c) = Ok daily_sales →
  after_call self c
  = {| time := S (time self);
       stock := Z.max 0 (stock self + bought_of (call_action c) - daily_sales);
       price := price self + (of_int (delta_at (S (time self))) + call_noise c);
       stock_history :=
         stock_history self
         ++ [Z.max 0 (stock self + bought_of (call_action c) - daily_sales)];
       price_history :=
         price_history self
         ++ [price self + (of_int (delta_at (S (time self))) + call_noise c)] |}.
Proof.
  intros Hsel. unfold after_call. by rewrite (do_action_Ok _ _ _ _ _ Hsel).
Qed.

Lemma after_call_raises self c (e : exn) :
  select_from_dist daily_sales_dist (call_ranreal c) = Raise e →
  after_call self c = self.
Proof.
  intros Hsel. unfold after_call.
  apply (do_action_Raise _ (call_noise c) (call_action c) self) in Hsel.
  by rewrite Hsel.
Qed.

Lemma daily_sales_values (r : F) (daily_sales : Z) :
  select_from_dist daily_sales_dist r = Ok daily_sales →
  daily_sales ∈ [3; 5; 7; 10]%Z.
Proof. intros Hsel. apply (select_from_dist_elem _ _ _ Hsel). Qed.

Lemma states_after_cons self c (calls : list Call) :
  states_after self (c :: calls) = after_call self c :: states_after (after_call self c) calls.
Proof. done. Qed.

Lemma final_state_cons self c (calls : list Call) :
  final_state self (c :: calls) = final_state (after_call self c) calls.
Proof. done. Qed.

(** Two environments with the same clock and price keep the same clock and
    price under calls with the same noise, whatever is ordered or sold. *)
Lemma states_after_price self1 self2 (calls1 calls2 : list Call) :
  time self1 = time self2 →
  price self1 = price self2 →
  Forall2 (λ c1 c2, call_noise c1 = call_noise c2) calls1 calls2 →
  Forall returns calls1 →
  Forall returns calls2 →
  price <$> states_after self1 calls1 = price <$> states_after self2 calls2
  ∧ time <$> states_after self1 calls1 = time <$> states_after self2 calls2.
Proof.
  intros Ht Hp Hnoise. revert self1 self2 Ht Hp.
  induction Hnoise as [|c1 c2 calls1 calls2 Hn _ IH]; intros self1 self2 Ht Hp Hr1 Hr2;
    [done |].
  apply Forall_cons in Hr1 as [[s1 Hs1] Hr1]. apply Forall_cons in Hr2 as [[s2 Hs2] Hr2].
  pose proof (after_call_returns self1 c1 s1 Hs1) as Hc1.
  pose proof (after_call_returns self2 c2 s2 Hs2) as Hc2.
  destruct (IH (after_call self1 c1) (after_call self2 c2)) as [IHp IHt];
    [rewrite Hc1, Hc2; simpl; by rewrite Ht
    |rewrite Hc1, Hc2; simpl; by rewrite Ht, Hp, Hn
    |done |done |].
  rewrite !states_after_cons, !fmap_cons, IHp, IHt, Hc1, Hc2. simpl.
  by rewrite Ht, Hp, Hn.
Qed.

End CallFacts.

(** X6. Whatever the arithmetic, a [do_action] call that returns has sold 3,
    5, 7 or 10 units: the new stock is [max(0, stock + buy - daily_sales)]
    for one of these values, hence at least [stock + buy - 10] and at most
    [max(0, stock + buy - 3)], also when [buy] is negative. *)
Theorem do_action_stock_bounds {F : Type} `{PyFloat F} (ranreal noise : F)
    (action : gmap string Z) (self self' : SmartphoneEnvironment (F:=F))
    (p : Percept (F:=F)) :
  do_action ranreal noise action self = Ok (self', p) →
  ∃ daily_sales : Z,
    daily_sales ∈ [3; 5; 7; 10]%Z
    ∧ stock self' = Z.max 0 (stock self + bought_of action - daily_sales)
    ∧ (stock self + bought_of action - 10 ≤ stock self')%Z
    ∧ (stock self' ≤ Z.max 0 (stock self + bought_of action - 3))%Z
    ∧ percept_stock p = stock self'.
Proof.
  intros (s & Hsel & _ & Hstock & _ & _ & ->)%do_action_inv.
  pose proof (daily_sales_values _ _ Hsel) as Hin.
  exists s. split; [done |]. split; [done |]. rewrite Hstock.
  repeat (apply elem_of_cons in Hin as [-> | Hin]); [..| by apply elem_of_nil in Hin];
    (split; [lia | split; [lia | done]]).
Qed.

Lemma do_action_stock_bounds_witness :
  let self' : SmartphoneEnvironment (F:=float) :=
    {| time := 1; stock := 0; price := of_int 580;
       stock_history := [4; 0]%Z; price_history := [of_int 600; of_int 580] |} in
  let self : SmartphoneEnvironment (F:=float) :=
    {| time := 0; stock := 4; price := of_int 600;
       stock_history := [4%Z]; price_history := [of_int 600] |} in
  do_action (lit 0.5) (lit 0) {[ "buy" := (-2)%Z ]} self = Ok (self', initial_percept self')
  ∧ ∃ daily_sales : Z,
      daily_sales ∈ [3; 5; 7; 10]%Z
      ∧ stock self' = Z.max 0 (stock self + bought_of {[ "buy" := (-2)%Z ]} - daily_sales)
      ∧ (stock self + bought_of {[ "buy" := (-2)%Z ]} - 10 ≤ stock self')%Z
      ∧ (stock self' ≤ Z.max 0 (stock self + bought_of {[ "buy" := (-2)%Z ]} - 3))%Z
      ∧ percept_stock (initial_percept self') = stock self'.
Proof.
  intros self' self.
  assert (Hdo : do_action (lit 0.5) (lit 0) {[ "buy" := (-2)%Z ]} self
                = Ok (self', initial_percept self')) by (by vm_compute).
  exact (conj Hdo (do_action_stock_bounds _ _ _ _ _ _ Hdo)).
Defined.

(** X7. Whatever the arithmetic, the price and the clock do not depend on
    what is ordered or sold: two sequences of returning calls with the same
    noise draws, started on the same environment, go through the same
    prices and times, whatever their actions and sales draws. *)
Theorem price_ignores_actions {F : Type} `{PyFloat F}
    (self : SmartphoneEnvironment (F:=F)) (calls1 calls2 : list (Call (F:=F))) :
  Forall2 (λ c1 c2, call_noise c1 = call_noise c2) calls1 calls2 →
  Forall returns calls1 →
  Forall returns calls2 →
  price <$> states_after self calls1 = price <$> states_after self calls2
  ∧ time <$> states_after self calls1 = time <$> states_after self calls2.
Proof. by apply states_after_price. Qed.

Lemma price_ignores_actions_witness :
  let calls1 : list (Call (F:=float)) :=
    [{| call_ranreal := lit 0.1; call_noise := lit 2.5; call_action := {[ "buy" := 15%Z ]} |}] in
  let calls2 : list (Call (F:=float)) :=
    [{| call_ranreal := lit 0.9; call_noise := lit 2.5; call_action := ∅ |}] in
  Forall2 (λ c1 c2, call_noise c1 = call_noise c2) calls1 calls2
  ∧ Forall returns calls1
  ∧ Forall returns calls2
  ∧ price <$> states_after SmartphoneEnvironment_init calls1
    = price <$> states_after SmartphoneEnvironment_init calls2
  ∧ time <$> states_after SmartphoneEnvironment_init calls1
    = time <$> states_after SmartphoneEnvironment_init calls2.
Proof.
  intros calls1 calls2.
  assert (Hn : Forall2 (λ c1 c2, call_noise c1 = call_noise c2) calls1 calls2)
    by (repeat constructor).
  assert (Hr1 : Forall returns calls1) by (repeat constructor; by exists 3%Z).
  assert (Hr2 : Forall returns calls2) by (repeat constructor; by exists 10%Z).
  exact (conj Hn (conj Hr1 (conj Hr2
    (price_ignores_actions SmartphoneEnvironment_init calls1 calls2 Hn Hr1 Hr2)))).
Defined.

Section HistoryFacts.
Context {F : Type} `{PyFloat F}.
Implicit Types (self : SmartphoneEnvironment (F:=F)) (c : Call (F:=F)).

Lemma after_call_cases self c :
  after_call self c = self
  ∨ ∃ (stock' : Z) (price' : F),
      after_call self c
      = {| time := S (time self); stock := stock'; price := price';
           stock_history := stock_history self ++ [stock'];
           price_history := price_history self ++ [price'] |}.
Proof.
  destruct (select_from_dist daily_sales_dist (call_ranreal c)) as [s|e] eqn:Hsel.
  - right. eexists _, _. apply (after_call_returns _ _ _ Hsel).
  - left. apply (after_call_raises _ _ _ Hsel).
Qed.

Lemma final_state_app self (calls1 calls2 : list Call) :
  final_state self (calls1 ++ calls2) = final_state (final_state self calls1) calls2.
Proof. apply foldl_app. Qed.

End HistoryFacts.

(** X8. Whatever the arithmetic, after every call of any sequence of
    [do_action] calls on a new environment the last element of
    [stock_history] is the current stock and the last element of
    [price_history] is the current price. *)
Theorem histories_end_with_state {F : Type} `{PyFloat F} (calls : list (Call (F:=F))) :
  Forall (λ self, last (stock_history self) = Some (stock self)
                  ∧ last (price_history self) = Some (price self))
         (states_after SmartphoneEnvironment_init calls).
Proof.
  apply states_after_invariant; [| done].
  intros self c HP. destruct (after_call_cases self c) as [-> | (s & p & ->)]; [done |].
  simpl. by rewrite !last_snoc.
Qed.

(** X9. Whatever the arithmetic, the histories are append-only: after every
    call of any sequence of [do_action] calls, the histories the environment
    had before the sequence are prefixes of its histories. *)
Theorem histories_append_only {F : Type} `{PyFloat F}
    (self : SmartphoneEnvironment (F:=F)) (calls : list (Call (F:=F))) :
  Forall (λ self', stock_history self `prefix_of` stock_history self'
                   ∧ price_history self `prefix_of` price_history self')
         (states_after self calls).
Proof.
  apply states_after_invariant; [| done].
  intros self' c [Hs Hp].
  destruct (after_call_cases self' c) as [-> | (s & p & ->)]; [done |].
  simpl. split; by apply prefix_app_r.
Qed.

(** X10. Whatever the arithmetic, each returning call advances the clock by
    one and adds one element to each history: after a sequence of returning
    calls, [time] and both lengths have grown by the number of calls. *)
Theorem returning_calls_counted {F : Type} `{PyFloat F}
    (self : SmartphoneEnvironment (F:=F)) (calls : list (Call (F:=F))) :
  Forall returns calls →
  time (final_state self calls) = time self + length calls
  ∧ length (stock_history (final_state self calls))
    = length (stock_history self) + length calls
  ∧ length (price_history (final_state self calls))
    = length (price_history self) + length calls.
Proof.
  intros Hret. revert self.
  induction Hret as [|c calls [s Hsel] _ IH]; intros self; [simpl; lia |].
  rewrite final_state_cons. destruct (IH (after_call self c)) as (-> & -> & ->).
  rewrite (after_call_returns _ _ _ Hsel). simpl. rewrite !length_app. simpl. lia.
Qed.

Lemma returning_calls_counted_witness :
  let calls : list (Call (F:=float)) :=
    [{| call_ranreal := lit 0.1; call_noise := lit 2.5; call_action := {[ "buy" := 15%Z ]} |};
     {| call_ranreal := lit 0.9; call_noise := lit (-1); call_action := ∅ |}] in
  Forall returns calls
  ∧ time (final_state SmartphoneEnvironment_init calls)
    = time (SmartphoneEnvironment_init (F:=float)) + length calls
  ∧ length (stock_history (final_state SmartphoneEnvironment_init calls))
    = length (stock_history (SmartphoneEnvironment_init (F:=float))) + length calls
  ∧ length (price_history (final_state SmartphoneEnvironment_init calls))
    = length (price_history (SmartphoneEnvironment_init (F:=float))) + length calls.
Proof.
  intros calls.
  assert (Hr : Forall returns calls)
    by (repeat constructor; [by exists 3%Z | by exists 10%Z]).
  exact (conj Hr (returning_calls_counted SmartphoneEnvironment_init calls Hr)).
Defined.

(** ** The environment in binary64 *)

Lemma do_action_returns64 (r noise : float) (action : gmap string Z)
    (self : SmartphoneEnvironment (F:=float)) :
  unit_draw r →
  do_action r noise action self
  = Ok (after_call self {| call_ranreal := r; call_noise := noise; call_action := action |},
        initial_percept
          (after_call self {| call_ranreal := r; call_noise := noise; call_action := action |})).
Proof.
  intros Hr. destruct (daily_sales_returns64 r Hr) as (s & Hsel).
  unfold after_call. simpl. by rewrite (do_action_Ok _ _ _ _ _ Hsel).
Qed.



(** ** The agent *)

(** X12. Whatever the arithmetic, the returned action is the dictionary
    [{"buy": tobuy}] and nothing else, also when [tobuy] is 0, and [tobuy]
    is decided by the stock first: a stock below 10 always gives an order of
    10 (never 15, whatever the price), a stock of exactly 10 gives no order,
    and a stock above 10 gives 15 when the price is below 0.8 times the
    updated average and 0 otherwise.  The order is never negative and it is
    the last element of [buy_history]. *)
Theorem select_action_by_stock {F : Type} `{PyFloat F}
    (percept : Percept (F:=F)) (self : SmartphoneAgent (F:=F)) :
  let self' := (select_action percept self).1 in
  ∃ tobuy : Z,
    (select_action percept self).2 = {[ "buy" := tobuy ]}
    ∧ ((percept_stock percept < 10)%Z → tobuy = 10%Z)
    ∧ (percept_stock percept = 10%Z → tobuy = 0%Z)
    ∧ ((10 < percept_stock percept)%Z →
       tobuy = if (percept_price percept <? lit 0.8 * average_price self')%py
               then 15%Z else 0%Z)
    ∧ (0 ≤ tobuy)%Z
    ∧ last (buy_history self') = Some tobuy.
Proof.
  unfold select_action. simpl. eexists. split; [reflexivity |].
  rewrite last_snoc.
  destruct (flt _ _); simpl;
    destruct (Z.ltb_spec 10 (percept_stock percept));
    destruct (Z.ltb_spec (percept_stock percept) 10);
    repeat split; intros; try done; lia.
Qed.

(** ** The driver *)

Section RunFacts.
Context {F : Type} `{PyFloat F}.
Implicit Types (sim : Simulation (F:=F)) (rng : nat → F * F).
Local Open Scope py_scope.

Lemma run_step_inv (r g : F) sim sim' :
  run_step r g sim = Ok sim' →
  agent sim' = (select_action (percept sim) (agent sim)).1
  ∧ do_action r g (select_action (percept sim) (agent sim)).2 (environment sim)
    = Ok (environment sim', percept sim').
Proof.
  unfold run_step. destruct (select_action _ _) as [agent' action]. simpl.
  destruct (do_action r g action (environment sim)) as [[e' p']|e]; simpl; [| done].
  by intros [= <-].
Qed.

(** A property indexed by the number of iterations done, carried by every
    iteration that returns, holds when [run_from] returns. *)
Lemma run_from_invariant (P : nat → Simulation (F:=F) → Prop) rng :
  (∀ i r g sim sim', P i sim → run_step r g sim = Ok sim' → P (S i) sim') →
  ∀ n k sim sim', P 0 sim → run_from rng k n sim = Ok sim' → P n sim'.
Proof.
  intros Hstep n. revert P Hstep.
  induction n as [|n IH]; intros P Hstep k sim sim' HP; simpl.
  - by intros [= <-].
  - destruct (run_step _ _ sim) as [sim1|e] eqn:Hs; simpl; [| done].
    apply (IH (λ i, P (S i))); [intros; by eapply Hstep | by eapply Hstep].
Qed.

(** The same for a property that depends on the draws: iteration [i] of
    [run_from rng k] uses the draws [rng (k + i)]. *)
Lemma run_from_invariant_draws (P : nat → Simulation (F:=F) → Prop) (rng : nat → F * F)
    (k : nat) :
  (∀ i sim sim', P i sim → run_step (rng (k + i)%nat).1 (rng (k + i)%nat).2 sim = Ok sim' →
                 P (S i) sim') →
  ∀ n sim sim', P 0 sim → run_from rng k n sim = Ok sim' → P n sim'.
Proof.
  intros Hstep n. revert P k Hstep.
  induction n as [|n IH]; intros P k Hstep sim sim' HP; simpl.
  - by intros [= <-].
  - destruct (run_step _ _ sim) as [sim1|e] eqn:Hs; simpl; [| done].
    apply (IH (λ i, P (S i)) (S k)).
    + intros i s s' HPi Hrun. apply (Hstep (S i) s s' HPi).
      by replace (k + S i)%nat with (S k + i)%nat by lia.
    + apply (Hstep 0 sim sim1 HP). by rewrite Nat.add_0_r.
Qed.

Lemma booked_snoc (orders : list (Z * F)) (b : Z) (p : F) :
  booked (orders ++ [(b, p)]) = booked orders + of_int b * p.
Proof. unfold booked. by rewrite foldl_snoc. Qed.

Lemma zip_snoc_longer (bh : list Z) (ph : list F) (b : Z) (p p' : F) :
  length ph = length bh →
  zip bh (ph ++ [p]) = zip bh ph
  ∧ zip (bh ++ [b]) ((ph ++ [p]) ++ [p']) = zip bh ph ++ [(b, p)].
Proof.
  intros Hlen. split.
  - rewrite <- (app_nil_r bh) at 1. by rewrite zip_with_app, app_nil_r.
  - by rewrite <- app_assoc, zip_with_app.
Qed.

Lemma Zsum_snoc (l : list Z) (x : Z) : Zsum (l ++ [x]) = (Zsum l + x)%Z.
Proof. unfold Zsum. induction l as [|y l IH]; simpl; lia. Qed.

End RunFacts.

(** X15. Whatever the arithmetic, when [run(steps)] returns on a new agent
    and a new environment, the clock shows [steps], [buy_history] has
    [steps] elements, both histories of the environment have [steps + 1]
    elements, and the stored percept is the environment's current price and
    stock. *)
Theorem run_bookkeeping {F : Type} `{PyFloat F} (rng : nat → F * F) (steps : nat)
    (sim : Simulation (F:=F)) :
  run rng steps (Simulation_init SmartphoneAgent_init SmartphoneEnvironment_init) = Ok sim →
  time (environment sim) = steps
  ∧ length (buy_history (agent sim)) = steps
  ∧ length (price_history (environment sim)) = S steps
  ∧ length (stock_history (environment sim)) = S steps
  ∧ percept sim = initial_percept (environment sim).
Proof.
  apply (run_from_invariant
    (λ i s, time (environment s) = i
            ∧ length (buy_history (agent s)) = i
            ∧ length (price_history (environment s)) = S i
            ∧ length (stock_history (environment s)) = S i
            ∧ percept s = initial_percept (environment s))); [| done].
  intros i r g s s' (Ht & Hb & Hp & Hs & _) [Ha Hdo]%run_step_inv.
  apply do_action_inv in Hdo as (_ & _ & Ht' & _ & Hsh & Hph & Hpc).
  rewrite Ha, Ht', Hsh, Hph, select_action_buy_history_length, !length_app. simpl.
  repeat split; [lia ..| done].
Qed.

Lemma run_bookkeeping_witness :
  ∃ sim : Simulation (F:=float),
    run (λ _, (lit 0.5, lit 0)) 3
      (Simulation_init SmartphoneAgent_init SmartphoneEnvironment_init) = Ok sim
    ∧ time (environment sim) = 3
    ∧ length (buy_history (agent sim)) = 3
    ∧ length (price_history (environment sim)) = 4
    ∧ length (stock_history (environment sim)) = 4
    ∧ percept sim = initial_percept (environment sim).
Proof.
  eexists. split; [by vm_compute |].
  apply (run_bookkeeping (λ _, (lit 0.5, lit 0)) 3). by vm_compute.
Defined.

(** X16. Whatever the arithmetic, when [run(steps)] returns on a new agent
    and a new environment, [total_spent] is the sum, in the order of the
    decisions, of [buy_history[i] * price_history[i]]: each order is valued
    at the price observed when it was decided, the last price of the history
    not being used. *)
Theorem total_spent_is_booked {F : Type} `{PyFloat F} (rng : nat → F * F) (steps : nat)
    (sim : Simulation (F:=F)) :
  run rng steps (Simulation_init SmartphoneAgent_init SmartphoneEnvironment_init) = Ok sim →
  total_spent (agent sim)
  = booked (zip (buy_history (agent sim)) (price_history (environment sim))).
Proof.
  intros Hrun.
  enough (percept sim = initial_percept (environment sim)
          ∧ last (price_history (environment sim)) = Some (price (environment sim))
          ∧ length (price_history (environment sim)) = S (length (buy_history (agent sim)))
          ∧ total_spent (agent sim)
            = booked (zip (buy_history (agent sim)) (price_history (environment sim))))
    as (_ & _ & _ & Hts) by done.
  revert Hrun.
  apply (run_from_invariant
    (λ _ s, percept s = initial_percept (environment s)
            ∧ last (price_history (environment s)) = Some (price (environment s))
            ∧ length (price_history (environment s)) = S (length (buy_history (agent s)))
            ∧ total_spent (agent s)
              = booked (zip (buy_history (agent s)) (price_history (environment s)))));
    [| done].
  intros _ r g s s' (Hpc & Hlast & Hlen & Hts) [Ha Hdo]%run_step_inv.
  apply do_action_inv in Hdo as (_ & _ & _ & _ & _ & Hph & Hpc').
  destruct (select_action_tobuy (percept s) (agent s)) as (b & _ & _ & Hbh & Hts').
  apply last_Some in Hlast as [ph0 Hph0].
  rewrite Ha, Hph, Hbh, Hts', Hts, Hph0, Hpc. rewrite Hph0, length_app in Hlen.
  simpl in Hlen.
  destruct (zip_snoc_longer (buy_history (agent s)) ph0 b
              (price (environment s)) (price (environment s'))) as [-> ->]; [lia |].
  rewrite booked_snoc, last_snoc, !length_app. simpl.
  repeat split; [done | lia].
Qed.

Lemma total_spent_is_booked_witness :
  ∃ sim : Simulation (F:=float),
    run (λ _, (lit 0.9, lit (-120))) 6
      (Simulation_init SmartphoneAgent_init SmartphoneEnvironment_init) = Ok sim
    ∧ total_spent (agent sim)
      = booked (zip (buy_history (agent sim)) (price_history (environment sim))).
Proof.
  eexists. split; [by vm_compute |].
  apply (total_spent_is_booked (λ _, (lit 0.9, lit (-120))) 6). by vm_compute.
Defined.

Section StepFacts.
Context {F : Type} `{PyFloat F}.

Lemma select_action_order (percept : Percept (F:=F)) (self : SmartphoneAgent (F:=F)) :
  ((percept_stock percept < 10)%Z → bought_of (select_action percept self).2 = 10%Z)
  ∧ (0 ≤ bought_of (select_action percept self).2)%Z
  ∧ buy_history (select_action percept self).1
    = buy_history self ++ [bought_of (select_action percept self).2].
Proof.
  unfold select_action, bought_of. simpl. rewrite lookup_singleton_eq. simpl.
  destruct (flt _ _); simpl;
    destruct (Z.ltb_spec 10 (percept_stock percept));
    destruct (Z.ltb_spec (percept_stock percept) 10);
    repeat split; intros; try done; lia.
Qed.

End StepFacts.

(** X17. Whatever the arithmetic, in a simulation the clamp of the stock is
    never active: the agent orders 10 units whenever the stock is below 10
    and at most 10 units are sold a day, so no sale is lost.  When
    [run(steps)] returns on a new agent and a new environment, the [steps]
    daily sales, each the value the sampler returned for the uniform draw of
    its iteration and each 3, 5, 7 or 10, are such that every entry of
    [stock_history] is the entry before it plus the order minus the sale of
    that iteration, without clamping, and the stock is
    [50 + sum(buy_history) - sum(sales)]. *)
Theorem run_stock_conserved {F : Type} `{PyFloat F} (rng : nat → F * F) (steps : nat)
    (sim : Simulation (F:=F)) :
  run rng steps (Simulation_init SmartphoneAgent_init SmartphoneEnvironment_init) = Ok sim →
  ∃ sales : list Z,
    length sales = steps
    ∧ (∀ (step : nat) (daily_sales : Z), sales !! step = Some daily_sales →
         select_from_dist daily_sales_dist (rng step).1 = Ok daily_sales)
    ∧ Forall (λ daily_sales, daily_sales ∈ [3; 5; 7; 10]%Z) sales
    ∧ (∀ (step : nat) (tobuy daily_sales : Z),
         buy_history (agent sim) !! step = Some tobuy →
         sales !! step = Some daily_sales →
         ∃ stock_before : Z,
           stock_history (environment sim) !! step = Some stock_before
           ∧ stock_history (environment sim) !! S step
             = Some (stock_before + tobuy - daily_sales)%Z)
    ∧ stock (environment sim) = (50 + Zsum (buy_history (agent sim)) - Zsum sales)%Z.
Proof.
  intros Hrun.
  pose (Inv := λ (i : nat) (s : Simulation (F:=F)),
    percept_stock (percept s) = stock (environment s)
    ∧ (0 ≤ stock (environment s))%Z
    ∧ length (buy_history (agent s)) = i
    ∧ length (stock_history (environment s)) = S i
    ∧ stock_history (environment s) !! i = Some (stock (environment s))
    ∧ ∃ sales : list Z,
        length sales = i
        ∧ (∀ (step : nat) (daily_sales : Z), sales !! step = Some daily_sales →
             select_from_dist daily_sales_dist (rng step).1 = Ok daily_sales)
        ∧ Forall (λ daily_sales, daily_sales ∈ [3; 5; 7; 10]%Z) sales
        ∧ (∀ (step : nat) (tobuy daily_sales : Z),
             buy_history (agent s) !! step = Some tobuy →
             sales !! step = Some daily_sales →
             ∃ stock_before : Z,
               stock_history (environment s) !! step = Some stock_before
               ∧ stock_history (environment s) !! S step
                 = Some (stock_before + tobuy - daily_sales)%Z)
        ∧ stock (environment s) = (50 + Zsum (buy_history (agent s)) - Zsum sales)%Z).
  enough (Inv steps sim) as (_ & _ & _ & _ & _ & Hsales) by done.
  revert Hrun. unfold run.
  apply (run_from_invariant_draws Inv rng 0).
  - intros i s s' (Hpc & Hpos & Hbl & Hsl & Hlast & sales & Hlen & Htie & Hall & Hstep & Hsum)
      [Ha Hdo]%run_step_inv.
    rewrite Nat.add_0_l in Hdo.
    apply do_action_inv in Hdo as (d & Hsel & _ & Hst & Hsh & _ & Hp').
    pose proof (daily_sales_values _ _ Hsel) as Hd.
    destruct (select_action_order (percept s) (agent s)) as (Hlow & Hnn & Hbh).
    rewrite Hpc in Hlow.
    set (b := bought_of (select_action (percept s) (agent s)).2) in *.
    assert (Hd10 : (3 ≤ d ≤ 10)%Z).
    { clear -Hd.
      repeat (apply elem_of_cons in Hd as [-> | Hd]); [..| by apply elem_of_nil in Hd]; lia. }
    assert (Hunclamped : stock (environment s') = (stock (environment s) + b - d)%Z).
    { rewrite Hst.
      destruct (Z.lt_ge_cases (stock (environment s)) 10) as [Hlt | Hge];
        [rewrite (Hlow Hlt) |]; lia. }
    unfold Inv. rewrite Ha, Hbh, Hsh, !length_app, Hbl, Hsl. simpl.
    split; [by rewrite Hp' |]. split; [lia |]. split; [lia |]. split; [lia |].
    split; [by rewrite lookup_app_r, Hsl, Nat.sub_diag by lia |].
    exists (sales ++ [d]). rewrite length_app, Forall_app, Forall_singleton. simpl.
    split; [lia |]. split; [| split; [by split |]; split].
    + intros step ds [Hold | [Hge Hnew]]%lookup_app_Some; [by apply Htie |].
      apply list_lookup_singleton_Some in Hnew as [Hz <-].
      by replace step with i by lia.
    + intros step tobuy ds Hb Hs.
      destruct (decide (step < i)) as [Hlt | Hge].
      * rewrite lookup_app_l in Hb by lia. rewrite lookup_app_l in Hs by lia.
        destruct (Hstep step tobuy ds Hb Hs) as (sb & H1 & H2).
        exists sb. split; by apply lookup_app_l_Some.
      * assert (step = i) as ->.
        { apply lookup_lt_Some in Hs. rewrite length_app in Hs. simpl in Hs. lia. }
        rewrite lookup_app_r, Hbl, Nat.sub_diag in Hb by lia.
        rewrite lookup_app_r, Hlen, Nat.sub_diag in Hs by lia.
        injection Hb as <-. injection Hs as <-.
        exists (stock (environment s)). split; [by apply lookup_app_l_Some |].
        rewrite lookup_app_r, Hsl, Nat.sub_diag by lia. simpl. by rewrite Hunclamped.
    + rewrite !Zsum_snoc, Hunclamped, Hsum. lia.
  - unfold Inv. simpl. repeat split; try done. exists []. repeat split; try done.
Qed.

Lemma run_stock_conserved_witness :
  ∃ sim : Simulation (F:=float),
    run (λ _, (lit 0.9, lit 0)) 8
      (Simulation_init SmartphoneAgent_init SmartphoneEnvironment_init) = Ok sim
    ∧ ∃ sales : list Z,
        length sales = 8
        ∧ (∀ (step : nat) (daily_sales : Z), sales !! step = Some daily_sales →
             select_from_dist daily_sales_dist
               ((λ _ : nat, (lit 0.9 : float, lit 0 : float)) step).1 = Ok daily_sales)
        ∧ Forall (λ daily_sales, daily_sales ∈ [3; 5; 7; 10]%Z) sales
        ∧ (∀ (step : nat) (tobuy daily_sales : Z),
             buy_history (agent sim) !! step = Some tobuy →
             sales !! step = Some daily_sales →
             ∃ stock_before : Z,
               stock_history (environment sim) !! step = Some stock_before
               ∧ stock_history (environment sim) !! S step
                 = Some (stock_before + tobuy - daily_sales)%Z)
        ∧ stock (environment sim) = (50 + Zsum (buy_history (agent sim)) - Zsum sales)%Z.
Proof.
  eexists. split; [by vm_compute |].
  apply (run_stock_conserved (λ _, (lit 0.9, lit 0)) 8). by vm_compute.
Defined.

(** X18. Whatever the arithmetic, a run of [n + m] iterations is a run of
    [n] iterations followed, when it returns, by the [m] iterations that use
    the next draws; when the first part raises, so does the whole run. *)
Theorem run_from_add {F : Type} `{PyFloat F} (rng : nat → F * F) (k n m : nat)
    (sim : Simulation (F:=F)) :
  run_from rng k (n + m) sim
  = match run_from rng k n sim with
    | Ok sim' => run_from rng (k + n) m sim'
    | Raise e => Raise e
    end.
Proof.
  revert k sim. induction n as [|n IH]; intros k sim; simpl.
  - by rewrite Nat.add_0_r.
  - destruct (run_step _ _ sim) as [sim1|e]; simpl; [| done].
    by rewrite IH, Nat.add_succ_comm.
Qed.

(** X19. In binary64 a simulation whose uniform draws all lie in [[0, 1)]
    never raises: [run(steps)] returns for every number of steps, every
    starting state and every noise. *)
Theorem run_returns (rng : nat → float * float) (steps : nat)
    (sim : Simulation (F:=float)) :
  (∀ step, unit_draw (rng step).1) →
  ∃ sim', run rng steps sim = Ok sim'.
Proof.
  intros Hrng. unfold run. generalize 0. revert sim.
  induction steps as [|steps IH]; intros sim k; simpl; [by eexists |].
  unfold run_step. destruct (select_action _ _) as [agent' action]. simpl.
  rewrite (do_action_returns64 _ _ _ _ (Hrng k)). simpl. apply IH.
Qed.

Lemma run_returns_witness :
  (∀ step : nat, unit_draw ((λ _ : nat, (lit 0.5 : float, lit 0 : float)) step).1)
  ∧ ∃ sim', run (λ _, (lit 0.5 : float, lit 0 : float)) 2
              (Simulation_init SmartphoneAgent_init SmartphoneEnvironment_init) = Ok sim'.
Proof.
  assert (Hrng : ∀ step : nat,
             unit_draw ((λ _ : nat, (lit 0.5 : float, lit 0 : float)) step).1)
    by (intros _; split; reflexivity).
  exact (conj Hrng (run_returns _ 2 _ Hrng)).
Defined.
